(** * Shot geometry, expected goals and scoreline simulation

    A shallow embedding of the numerical core of the course notebooks
    [01_building_xg_model.ipynb] and
    [04_randomness_and_prediction_of_matches.ipynb], of the event and
    match-id helpers around it, and of the match lookup of
    [00_loading_investigating_world_cup_data.ipynb].

    Python floats are modelled in two layers.

    Values are given in exact arithmetic: [np.sqrt], [np.arctan], [np.exp]
    and [np.pi] are the functions [sqrt], [atan], [exp] and the constant
    [PI] of the real-number library, a float literal such as [7.32] is the
    rational it denotes, and a binary64 input stands for the number it
    denotes ([Binary64.F2R]).  The rounding of values is outside the
    model.  The functions of [XgModel] and [MatchSim] are this layer.

    Control flow that depends on rounding is taken from binary64 itself.
    Python's float division raises [ZeroDivisionError] when the divisor it
    is given is a zero, and the divisor of [compute_shot_angle] is a
    binary64 value computed with rounded operations: [Binary64.divisor64]
    computes it with the primitive binary64 operations, and
    [Binary64.compute_shot_angle64] and [Binary64.compute_xg64] raise
    where it is a zero.  The exact divisor vanishes at no binary64 input
    ([exact_divisor_nonzero]), so the two layers differ in where the
    division raises, and every statement about raising at a binary64 shot
    is made on the binary64 layer.

    The other exceptions do not depend on arithmetic: a label missing from
    a [pd.Series] raises [KeyError], a missing file [FileNotFoundError],
    and a category the fitted formula has never seen [PatsyError]. *)

From Stdlib Require Import Reals Lra Lia String ZArith List Permutation Sorted.
From Stdlib Require Floats.
From ExtLib Require Import Structures.Monad Data.Monads.EitherMonad.
Import ListNotations.
Import MonadNotation.
Local Open Scope monad_scope.
Local Open Scope R_scope.

(** ** Exceptions *)

(** The exceptions the modelled code can raise. *)
Inductive exn : Type :=
| ZeroDivisionError
| FileNotFoundError (path : string * string)
| KeyError (label : string)
| PatsyError (value : string).

(** A computation that returns a value or raises: [inr v] is a normal
    return, [inl e] a raised exception. *)
Definition py (A : Type) : Type := sum exn A.

#[export] Instance Monad_py : Monad py := Monad_either exn.

Definition Ok {A : Type} (a : A) : py A := inr a.
Definition Raise {A : Type} (e : exn) : py A := inl e.

(** [a / b] in exact arithmetic: the quotient, and no value where the
    exact divisor is zero.  Where the divisor the code holds in binary64 is
    a zero is decided by [Binary64.float_div64]. *)
Definition float_div (a b : R) : py R :=
  if Req_dec_T b 0 then Raise ZeroDivisionError else Ok (a / b).

(** A [pd.Series] of floats indexed by labels. *)
Definition Series : Type := list (string * R).

(** [s[label]]: the value stored under [label]. *)
Fixpoint series_get (s : Series) (label : string) : py R :=
  match s with
  | [] => Raise (KeyError label)
  | (l, v) :: rest => if String.eqb l label then Ok v else series_get rest label
  end.

(** ** Notebook 01: the expected-goals model *)

Module XgModel.

(** [transform_coordinates_for_computation]: from the 0-100 frame to metres
    from the goal line and from the goal centre. *)
Definition transform_coordinates_for_computation (x y : R) : R * R :=
  let m_x := 100 - x in
  let c := Rabs (y - 50) in
  ((m_x * 105) / 100, (c * 65) / 100).

(** [compute_shot_distance]. *)
Definition compute_shot_distance (x y : R) : R :=
  let '(t_x, t_y) := transform_coordinates_for_computation x y in
  sqrt (t_x ^ 2 + t_y ^ 2).

(** The divisor of the arctangent argument in [compute_shot_angle]. *)
Definition angle_divisor (t_x t_y : R) : R :=
  t_x ^ 2 + t_y ^ 2 - (7.32 / 2) ^ 2.

(** [compute_shot_angle] in exact arithmetic. *)
Definition compute_shot_angle (x y : R) : py R :=
  let '(t_x, t_y) := transform_coordinates_for_computation x y in
  q <- float_div (7.32 * t_x) (angle_divisor t_x t_y) ;;
  let angle := atan q in
  ret (if Rlt_dec angle 0 then PI + angle else angle).

(** The parameter store [compute_xg] reads: what unpickling the file
    [model_fn] of directory [model_dir] gives. *)
Definition store : Type := string -> string -> option Series.

Definition pickle_load (fs : store) (model_dir model_fn : string) : py Series :=
  match fs model_dir model_fn with
  | Some params => Ok params
  | None => Raise (FileNotFoundError (model_dir, model_fn))
  end.

End XgModel.

(** ** Notebook 04: the Poisson scoring model and the scoreline matrix *)

Module MatchSim.

(** A row of the results table [epl]. *)
Record Match : Type := {
  HomeTeam : string;
  AwayTeam : string;
  HomeGoals : Z;
  AwayGoals : Z
}.

(** A row of [goal_model_data]. *)
Record GoalRow : Type := {
  team : string;
  opponent : string;
  goals : Z;
  home : Z
}.

(** The two frames [pd.concat] joins: the home side's view of every match,
    then the away side's view of every match. *)
Definition home_rows (epl : list Match) : list GoalRow :=
  map (fun m => {| team := HomeTeam m; opponent := AwayTeam m;
                   goals := HomeGoals m; home := 1 |}) epl.

Definition away_rows (epl : list Match) : list GoalRow :=
  map (fun m => {| team := AwayTeam m; opponent := HomeTeam m;
                   goals := AwayGoals m; home := 0 |}) epl.

(** [goal_model_data]. *)
Definition goal_model_data (epl : list Match) : list GoalRow :=
  home_rows epl ++ away_rows epl.

(** The result of fitting [goals ~ home + team + opponent] with the Poisson
    family: the intercept, the coefficient of [home], and for each of the
    two categorical factors the levels remembered from the fitting data
    with the amount each adds to the linear predictor (nothing for the
    reference level). *)
Record GLMResults : Type := {
  Intercept : R;
  home_coef : R;
  team_levels : list (string * R);
  opponent_levels : list (string * R)
}.

(** Coding a categorical value against the remembered levels: a value that
    is none of them is refused. *)
Fixpoint level_effect (levels : list (string * R)) (value : string) : py R :=
  match levels with
  | [] => Raise (PatsyError value)
  | (l, b) :: rest =>
      if String.eqb l value then Ok b else level_effect rest value
  end.

(** The values a factor was fitted on. *)
Definition seen (levels : list (string * R)) (value : string) : Prop :=
  In value (map fst levels).

(** [goal_model.predict(pd.DataFrame({team, opponent, home}, index=[1])).loc[1]]:
    the Poisson family's log link makes the prediction the exponential of
    the linear predictor. *)
Definition predict (goal_model : GLMResults) (team opponent : string) (home : Z)
  : py R :=
  b_team <- level_effect (team_levels goal_model) team ;;
  b_opponent <- level_effect (opponent_levels goal_model) opponent ;;
  ret (exp (Intercept goal_model + b_team + b_opponent
            + home_coef goal_model * IZR home)).

(** [scipy.stats.poisson.pmf(k, mu)] for a goal count [k] and a rate
    [mu >= 0]. *)
Definition poisson_pmf (k : nat) (mu : R) : R :=
  mu ^ k * exp (- mu) / INR (fact k).

(** [range(0, n)]. *)
Definition range0 (n : Z) : list nat := seq 0 (Z.to_nat n).

(** [np.outer]. *)
Definition outer (a b : list R) : list (list R) :=
  map (fun x => map (fun y => x * y) b) a.

(** [simulate_matches]. *)
Definition simulate_matches (goal_model : GLMResults)
    (home_side away_side : string) (max_goals : Z) : py (list (list R)) :=
  mean_home_goals <- predict goal_model home_side away_side 1 ;;
  mean_away_goals <- predict goal_model away_side home_side 0 ;;
  let simulated_goals :=
    map (fun team_mean =>
           map (fun i => poisson_pmf i team_mean) (range0 (max_goals + 1)))
        [mean_home_goals; mean_away_goals] in
  ret (outer (nth 0 simulated_goals []) (nth 1 simulated_goals [])).

(** Reading a matrix: cell [(i, j)], and the sum of all cells. *)
Definition cell (M : list (list R)) (i j : nat) : option R :=
  match nth_error M i with
  | Some row => nth_error row j
  | None => None
  end.

Definition Rsum (l : list R) : R := fold_right Rplus 0 l.

Definition matrix_sum (M : list (list R)) : R := Rsum (map Rsum M).

End MatchSim.

(** ** Sample data *)

Module Samples.



(** A store holding a record with all coefficients 0, whatever the name. *)
Definition zero_store : XgModel.store :=
  fun _ _ =>
    Some [("Intercept"%string, 0); ("dist"%string, 0); ("angle"%string, 0)].

(** A two-team model whose home rate is 2 and whose away rate is 1. *)
Definition two_teams : MatchSim.GLMResults :=
  {| MatchSim.Intercept := 0;
     MatchSim.home_coef := ln 2;
     MatchSim.team_levels := [("Arsenal"%string, 0); ("Man City"%string, 0)];
     MatchSim.opponent_levels := [("Arsenal"%string, 0); ("Man City"%string, 0)] |}.

(** Two results. *)
Definition two_results : list MatchSim.Match :=
  [ {| MatchSim.HomeTeam := "Man City"; MatchSim.AwayTeam := "Arsenal";
       MatchSim.HomeGoals := 3; MatchSim.AwayGoals := 0 |};
    {| MatchSim.HomeTeam := "Arsenal"; MatchSim.AwayTeam := "Man City";
       MatchSim.HomeGoals := 1; MatchSim.AwayGoals := 2 |} ].

End Samples.

(** ** Rational enclosures of the exponential *)

Module Enclosure.

(** Fixed-point numbers with twelve decimal places: [z] stands for
    [z / scale]. *)
Definition scale : Z := 1000000000000.

(** The square of a fixed-point number, rounded down. *)
Definition sq_floor (z : Z) : Z := (z * z / scale)%Z.

End Enclosure.

(** ** Python dictionaries *)

(** [d[key]] on a dict with string keys. *)
Fixpoint dict_get {V : Type} (d : list (string * V)) (key : string) : py V :=
  match d with
  | [] => Raise (KeyError key)
  | (k, v) :: rest => if String.eqb k key then Ok v else dict_get rest key
  end.

(** ** Notebook 01: saving the fitted parameters *)

Module ModelStore.


End ModelStore.

(** ** Notebook 01: event tables *)

Module Events.

(** A cell of an events table: a missing value, a string or an integer. *)
Inductive cell : Type :=
| NaN
| Str (s : string)
| Int (z : Z).

(** [c == v] on cells: a missing value equals nothing, a string never
    equals an integer. *)
Definition cell_eqb (c v : cell) : bool :=
  match c, v with
  | Str a, Str b => String.eqb a b
  | Int a, Int b => Z.eqb a b
  | _, _ => false
  end.

(** A row: its index label and its cells by column name. *)
Record Row : Type := {
  label : cell;
  cells : list (string * cell)
}.

(** A [pd.DataFrame]: its columns and its rows. *)
Record DataFrame : Type := {
  columns : list string;
  rows : list Row
}.

Definition has_column (e : DataFrame) (col : string) : bool :=
  existsb (String.eqb col) (columns e).

(** The cell of a row under a column; an event without that key has a
    missing value there. *)
Fixpoint at_column (cs : list (string * cell)) (col : string) : cell :=
  match cs with
  | [] => NaN
  | (k, v) :: rest => if String.eqb k col then v else at_column rest col
  end.

(** [e.loc[e[col] == val]]. *)
Definition loc_eq (e : DataFrame) (col : string) (val : cell) : py DataFrame :=
  if has_column e col
  then Ok {| columns := columns e;
             rows := filter (fun r => cell_eqb (at_column (cells r) col) val)
                            (rows e) |}
  else Raise (KeyError col).

(** What [set_index(col)] makes of one row. *)
Definition reindex (col : string) (r : Row) : Row :=
  {| label := at_column (cells r) col;
     cells := filter (fun kv => negb (String.eqb (fst kv) col)) (cells r) |}.

(** [e.set_index(col)]: the column becomes the index and is no longer a
    column. *)
Definition set_index (e : DataFrame) (col : string) : py DataFrame :=
  if has_column e col
  then Ok {| columns := filter (fun c => negb (String.eqb c col)) (columns e);
             rows := map (reindex col) (rows e) |}
  else Raise (KeyError col).

(** Whether a row has, under every column of a filter, the value asked
    for. *)
Definition passes (items : list (string * cell)) (r : Row) : bool :=
  forallb (fun kv => cell_eqb (at_column (cells r) (fst kv)) (snd kv)) items.

(** The loop of [filter_events] over [event_type_filter.items()]. *)
Fixpoint apply_filters (required_event : DataFrame)
    (items : list (string * cell)) : py DataFrame :=
  match items with
  | [] => Ok required_event
  | (col, val) :: rest =>
      required_event' <- loc_eq required_event col val ;;
      apply_filters required_event' rest
  end.

(** [filter_events]. *)
Definition filter_events (e : DataFrame) (event_type : string)
    (event_type_filter : option (list (string * cell))) : py DataFrame :=
  let event_type_filter :=
    match event_type_filter with
    | Some (kv :: rest) => kv :: rest
    | _ => []
    end in
  selected <- loc_eq e "type_name" (Str event_type) ;;
  required_event <- set_index selected "id" ;;
  apply_filters required_event event_type_filter.

End Events.

(** ** Notebook 01: the match ids of a competition *)

Module Competition.

Section MatchIds.

(** The JSON values a match record holds. *)
Variable V : Type.

(** What [data_dir] holds for a competition: the season files of
    [matches/<comp_id>] in the order [os.listdir] gives them, each with the
    list of match records [json.load] reads from it; nothing when the
    directory does not exist. *)
Definition data_store : Type :=
  string -> Z -> option (list (string * list (list (string * V)))).

(** The inner loop: the ids of one season appended to [match_ids]. *)
Fixpoint append_season (matches : list (list (string * V)))
    (match_ids : list V) : py (list V) :=
  match matches with
  | [] => Ok match_ids
  | m :: rest =>
      id <- dict_get m "match_id" ;;
      append_season rest (match_ids ++ [id])
  end.

(** The outer loop over the season files. *)
Fixpoint append_seasons (season_fns : list (string * list (list (string * V))))
    (match_ids : list V) : py (list V) :=
  match season_fns with
  | [] => Ok match_ids
  | (season_fn, matches) :: rest =>
      match_ids' <- append_season matches match_ids ;;
      append_seasons rest match_ids'
  end.

(** [get_competition_match_ids]. *)
Definition get_competition_match_ids (fs : data_store) (comp_id : Z)
    (data_dir : string) : py (list V) :=
  match fs data_dir comp_id with
  | None => Raise (FileNotFoundError (data_dir, "matches"%string))
  | Some season_fns => append_seasons season_fns []
  end.

End MatchIds.

End Competition.

(** ** Notebook 04: shots and goals per match *)

Module ShotCounts.

(** A tag of a Wyscout event: a dict with integer values. *)
Definition Tag : Type := list (string * Z).

(** [is_shot_id_present]. *)
Fixpoint is_shot_id_present (tags : list Tag) : py Z :=
  match tags with
  | [] => Ok 0%Z
  | tag :: rest =>
      id <- dict_get tag "id" ;;
      if (id =? 101)%Z then Ok 1%Z else is_shot_id_present rest
  end.

(** A row of [shots]. *)
Record ShotEvent : Type := {
  matchId : Z;
  tags : list Tag
}.

(** The [goal] column: [is_shot_id_present] applied row by row. *)
Fixpoint goal_column (shots : list ShotEvent) : py (list Z) :=
  match shots with
  | [] => Ok []
  | shot :: rest =>
      g <- is_shot_id_present (tags shot) ;;
      gs <- goal_column rest ;;
      ret (g :: gs)
  end.

(** The group keys of [groupby]: the distinct values, in increasing
    order. *)
Fixpoint insert_key (k : Z) (keys : list Z) : list Z :=
  match keys with
  | [] => [k]
  | k' :: rest =>
      if (k <? k')%Z then k :: keys
      else if (k =? k')%Z then keys
      else k' :: insert_key k rest
  end.

Definition group_keys (ids : list Z) : list Z := fold_right insert_key [] ids.

(** [groupby("matchId")] on the table of (matchId, goal) rows: each key
    with its rows, in their original order. *)
Definition groupby (table : list (Z * Z)) : list (Z * list (Z * Z)) :=
  map (fun k => (k, filter (fun r => (fst r =? k)%Z) table))
      (group_keys (map fst table)).

Definition Zsum (l : list Z) : Z := fold_right Z.add 0%Z l.

(** The loop filling [shots_per_match] and [goals_per_match]. *)
Definition per_match (shots : list ShotEvent) : py (list Z * list Z) :=
  goal <- goal_column shots ;;
  let groups := groupby (combine (map matchId shots) goal) in
  ret (map (fun g => Z.of_nat (length (snd g))) groups,
       map (fun g => Zsum (map snd (snd g))) groups).

End ShotCounts.

(** ** Notebook 00: looking a match up *)

Module WorldCup.

(** A match record, with the fields the notebook reads. *)
Record WCMatch : Type := {
  home_team_name : string;
  away_team_name : string;
  home_score : Z;
  away_score : Z;
  match_id : Z
}.

(** [required_match_id]: an id, or the text it starts as. *)
Inductive id_or_text : Type :=
| NotFound
| MatchId (id : Z).

(** The loop that looks for the match of two given teams. *)
Definition find_required_match_id (matches : list WCMatch)
    (required_home_team required_away_team : string) : id_or_text :=
  fold_left
    (fun required_match_id m =>
       if (String.eqb (home_team_name m) required_home_team
           && String.eqb (away_team_name m) required_away_team)%bool
       then MatchId (match_id m) else required_match_id)
    matches NotFound.

End WorldCup.

(** ** Notebook 01 on binary64: where the code raises *)

Module Binary64.

Import PrimFloat.

#[local] Set Warnings "-inexact-float".

(** What a binary64 value denotes; 0 for an infinity or a NaN. *)
Definition F2R (f : float) : R :=
  match FloatOps.Prim2SF f with
  | SpecFloat.S754_finite s m e =>
      IZR ((if s then Z.neg m else Z.pos m) * 2 ^ Z.max 0 e)
      / IZR (2 ^ Z.max 0 (- e))
  | _ => 0
  end.

(** A number, as opposed to an infinity or a NaN. *)
Definition finite64 (f : float) : bool :=
  match FloatOps.Prim2SF f with
  | SpecFloat.S754_finite _ _ _ | SpecFloat.S754_zero _ => true
  | _ => false
  end.

(** The declared domain: both coordinates are numbers between 0 and 100.
    There no square overflows. *)
Definition in_domain64 (x y : float) : Prop :=
  finite64 x = true /\ finite64 y = true /\
  0 <= F2R x <= 100 /\ 0 <= F2R y <= 100.

(** [t ** 2] where the platform's [pow] rounds the square correctly. *)
Definition sq (t : float) : float := (t * t)%float.

(** The divisor of [compute_shot_angle] as the code computes it, every
    operation rounded to binary64.  [pow2] is [t ** 2], the platform's
    [pow(t, 2.0)]. *)
Definition divisor64 (pow2 : float -> float) (x y : float) : float :=
  let m_x := (100 - x)%float in
  let c := abs (y - 50)%float in
  let t_x := ((m_x * 105) / 100)%float in
  let t_y := ((c * 65) / 100)%float in
  (pow2 t_x + pow2 t_y - pow2 (7.32 / 2))%float.

(** Whether that divisor is a zero, which is when Python's [/] raises. *)
Definition zero_divisor64 (pow2 : float -> float) (x y : float) : bool :=
  (divisor64 pow2 x y =? 0)%float.

(** Python's [a / b] on floats, where [b64] is the divisor the code holds:
    [ZeroDivisionError] when it is a zero of either sign, otherwise the
    quotient, whose value is given in exact arithmetic. *)
Definition float_div64 (b64 : float) (a b : R) : py R :=
  if (b64 =? 0)%float then Raise ZeroDivisionError else Ok (a / b).

(** The angle [compute_shot_angle] returns, in exact arithmetic. *)
Definition shot_angle_value (x y : R) : R :=
  let '(t_x, t_y) := XgModel.transform_coordinates_for_computation x y in
  let angle := atan (7.32 * t_x / XgModel.angle_divisor t_x t_y) in
  if Rlt_dec angle 0 then PI + angle else angle.

(** [compute_shot_angle] on binary64 inputs of the declared domain: the
    division raises when the binary64 divisor is a zero. *)
Definition compute_shot_angle64 (pow2 : float -> float) (x y : float) : py R :=
  let '(t_x, t_y) :=
    XgModel.transform_coordinates_for_computation (F2R x) (F2R y) in
  q <- float_div64 (divisor64 pow2 x y)
         (7.32 * t_x) (XgModel.angle_divisor t_x t_y) ;;
  let angle := atan q in
  ret (if Rlt_dec angle 0 then PI + angle else angle).

(** [compute_xg] on binary64 inputs of the declared domain. *)
Definition compute_xg64 (fs : XgModel.store) (pow2 : float -> float)
    (xc yc : float) (model_fn model_dir : string) : py R :=
  let shot_dist := XgModel.compute_shot_distance (F2R xc) (F2R yc) in
  shot_ang <- compute_shot_angle64 pow2 xc yc ;;
  model_params <- XgModel.pickle_load fs model_dir model_fn ;;
  intercept <- series_get model_params "Intercept" ;;
  coef_dist <- series_get model_params "dist" ;;
  coef_angle <- series_get model_params "angle" ;;
  let linear_sum := intercept + (shot_dist * coef_dist) + (shot_ang * coef_angle) in
  ret (1 / (1 + exp (-1 * linear_sum))).


(** Coordinates the theorems evaluate: those of the shot at (90, 50), in
    front of the goal centre, those of a shot whose binary64 divisor
    vanishes, and [100 - 366/105] as binary64 computes it. *)
Definition x_90 : float := 90%float.
Definition y_50 : float := 50%float.
Definition x_vanishing : float := 96.53%float.
Definition y_vanishing : float := 50.53406501831425%float.
Definition x_on_circle : float := (100 - 366 / 105)%float.


End Binary64.

(** ** More sample data *)

Module MoreSamples.

(** Three events: an open-play shot, a pass and a penalty. *)
Definition three_events : Events.DataFrame :=
  {| Events.columns :=
       ["id"; "type_name"; "shot_type_name"; "player_name"]%string;
     Events.rows :=
       [ {| Events.label := Events.Int 0;
            Events.cells :=
              [("id"%string, Events.Str "a1");
               ("type_name"%string, Events.Str "Shot");
               ("shot_type_name"%string, Events.Str "Open Play");
               ("player_name"%string, Events.Str "Lionel Messi")] |};
         {| Events.label := Events.Int 1;
            Events.cells :=
              [("id"%string, Events.Str "b2");
               ("type_name"%string, Events.Str "Pass");
               ("player_name"%string, Events.Str "Xavi")] |};
         {| Events.label := Events.Int 2;
            Events.cells :=
              [("id"%string, Events.Str "c3");
               ("type_name"%string, Events.Str "Shot");
               ("shot_type_name"%string, Events.Str "Penalty");
               ("player_name"%string, Events.Str "Lionel Messi")] |} ] |}.

(** A data directory with two season files of competition 11. *)
Definition la_liga : Competition.data_store Z :=
  fun data_dir comp_id =>
    if (String.eqb data_dir "../data/statsbomb/data/" && (comp_id =? 11)%Z)%bool
    then Some [ ("1.json"%string,
                 [ [("match_id"%string, 9609%Z); ("home_score"%string, 2%Z)];
                   [("match_id"%string, 9610%Z)] ]);
                ("27.json"%string,
                 [ [("home_score"%string, 0%Z); ("match_id"%string, 266166%Z)] ]) ]
    else None.

(** Four shots of two matches; the second and the fourth are goals. *)
Definition four_shots : list ShotCounts.ShotEvent :=
  [ {| ShotCounts.matchId := 2516740;
       ShotCounts.tags := [[("id"%string, 402%Z)]; [("id"%string, 1801%Z)]] |};
    {| ShotCounts.matchId := 2516739;
       ShotCounts.tags := [[("id"%string, 101%Z)]; [("id"%string, 1801%Z)]] |};
    {| ShotCounts.matchId := 2516740; ShotCounts.tags := [] |};
    {| ShotCounts.matchId := 2516740;
       ShotCounts.tags := [[("id"%string, 403%Z)]; [("id"%string, 101%Z)]] |} ].

End MoreSamples.

Import XgModel MatchSim.

(** ** Facts about the shot geometry *)

Section Geometry.

Lemma float_div_ok (a b : R) : b <> 0 -> float_div a b = Ok (a / b).
Proof.
  intros Hb. unfold float_div.
  destruct (Req_dec_T b 0) as [E | _]; [contradiction | reflexivity].
Qed.

Lemma transform_fst (x y : R) :
  fst (transform_coordinates_for_computation x y) = (100 - x) * 105 / 100.
Proof. reflexivity. Qed.

Lemma transform_snd (x y : R) :
  snd (transform_coordinates_for_computation x y) = Rabs (y - 50) * 65 / 100.
Proof. reflexivity. Qed.

(** The distance is the square root of a sum of two squares. *)
Lemma compute_shot_distance_eq (x y : R) :
  compute_shot_distance x y =
    sqrt (((100 - x) * 105 / 100) ^ 2 + (Rabs (y - 50) * 65 / 100) ^ 2).
Proof. reflexivity. Qed.

Lemma sum_squares_nonneg (a b : R) : 0 <= a ^ 2 + b ^ 2.
Proof. nra. Qed.

(** The angle computation, once the division is known to go through. *)
Lemma compute_shot_angle_ok (x y : R) :
  let t_x := fst (transform_coordinates_for_computation x y) in
  let t_y := snd (transform_coordinates_for_computation x y) in
  angle_divisor t_x t_y <> 0 ->
  compute_shot_angle x y =
    Ok (let angle := atan (7.32 * t_x / angle_divisor t_x t_y) in
        if Rlt_dec angle 0 then PI + angle else angle).
Proof.
  intros t_x t_y Hd. unfold compute_shot_angle.
  cbn [transform_coordinates_for_computation].
  change ((100 - x) * 105 / 100) with t_x.
  change (Rabs (y - 50) * 65 / 100) with t_y.
  rewrite (float_div_ok _ _ Hd). reflexivity.
Qed.

(** The branch correction: a positive argument keeps the arctangent, a
    negative one is lifted by [PI]; either way the result is in (0, PI). *)
Lemma corrected_atan_range (q : R) :
  q <> 0 ->
  0 < (if Rlt_dec (atan q) 0 then PI + atan q else atan q) < PI.
Proof.
  intros Hq. pose proof (atan_bound q) as [Hlo Hhi]. pose proof PI_RGT_0 as Hpi.
  destruct (Rlt_dec (atan q) 0) as [Hneg | Hpos].
  - lra.
  - split; [| lra].
    destruct (Rtotal_order q 0) as [Hlt | [Heq | Hgt]].
    + apply atan_increasing in Hlt. rewrite atan_0 in Hlt. lra.
    + contradiction.
    + apply atan_increasing in Hgt. rewrite atan_0 in Hgt. exact Hgt.
Qed.

End Geometry.

(** C8.  For x and y in [0, 100], [compute_shot_distance x y] is
    non-negative and is the Euclidean norm of the transformed coordinates
    ((100 - x) * 105 / 100, |y - 50| * 65 / 100): it is the square root of
    the sum of their squares, and its own square is that sum. *)
Theorem compute_shot_distance_norm (x y : R) :
  0 <= x <= 100 -> 0 <= y <= 100 ->
  let t_x := (100 - x) * 105 / 100 in
  let t_y := Rabs (y - 50) * 65 / 100 in
  0 <= compute_shot_distance x y /\
  compute_shot_distance x y = sqrt (t_x ^ 2 + t_y ^ 2) /\
  compute_shot_distance x y * compute_shot_distance x y = t_x ^ 2 + t_y ^ 2.
Proof.
  intros _ _ t_x t_y. rewrite compute_shot_distance_eq. fold t_x t_y.
  split; [apply sqrt_pos |]. split; [reflexivity |].
  apply sqrt_sqrt, sum_squares_nonneg.
Qed.

Lemma compute_shot_distance_norm_witness :
  0 <= compute_shot_distance 90 50 /\
  compute_shot_distance 90 50 =
    sqrt (((100 - 90) * 105 / 100) ^ 2 + (Rabs (50 - 50) * 65 / 100) ^ 2) /\
  compute_shot_distance 90 50 * compute_shot_distance 90 50 =
    ((100 - 90) * 105 / 100) ^ 2 + (Rabs (50 - 50) * 65 / 100) ^ 2.
Proof. apply (compute_shot_distance_norm 90 50); lra. Defined.

(** C2 as stated fails on the goal line: at (100, 50), inside the declared
    domain, the arctangent argument is 0, the correction does not fire and
    the function returns 0, which is not strictly positive. *)
Lemma compute_shot_angle_goal_line :
  0 <= 100 <= 100 /\ 0 <= 50 <= 100 /\
  compute_shot_angle 100 50 = Ok 0 /\
  ~ (exists a, compute_shot_angle 100 50 = Ok a /\ 0 < a < PI).
Proof.
  assert (E : compute_shot_angle 100 50 = Ok 0).
  { rewrite compute_shot_angle_ok.
    - cbv zeta. rewrite transform_fst.
      replace (7.32 * ((100 - 100) * 105 / 100) / _) with 0
        by (unfold Rdiv; ring).
      rewrite atan_0. destruct (Rlt_dec 0 0) as [H | _]; [lra | reflexivity].
    - unfold angle_divisor. rewrite transform_fst, transform_snd.
      replace (50 - 50) with 0 by lra. rewrite Rabs_R0. lra. }
  repeat split; try lra; [exact E |].
  intros [a [Ha Hr]]. rewrite E in Ha. injection Ha as <-. lra.
Qed.

(** ** The shot at (90, 50) *)

Section Shot_90_50.

Lemma sqrt3_lower : 17 / 10 < sqrt 3.
Proof.
  replace (17 / 10) with (sqrt ((17 / 10) * (17 / 10)))
    by (apply sqrt_square; lra).
  apply sqrt_lt_1_alt. lra.
Qed.

Lemma atan_above_PI6 (q : R) : 10 / 17 <= q -> PI / 6 < atan q.
Proof.
  intros Hq. pose proof PI_RGT_0 as Hpi.
  rewrite <- (atan_tan (PI / 6)) by lra.
  apply atan_increasing. rewrite tan_PI6.
  pose proof sqrt3_lower as Hs.
  apply Rlt_le_trans with (10 / 17); [| exact Hq].
  unfold Rdiv. rewrite Rmult_1_l.
  replace (10 * / 17) with (/ (17 / 10)) by (field; lra).
  apply Rinv_lt_contravar; [| exact Hs].
  apply Rmult_lt_0_compat; lra.
Qed.

Lemma atan_below_PI4 (q : R) : q < 1 -> atan q < PI / 4.
Proof. intros Hq. rewrite <- atan_1. apply atan_increasing. exact Hq. Qed.

Lemma distance_90_50 : compute_shot_distance 90 50 = 10.5.
Proof.
  rewrite compute_shot_distance_eq.
  replace (50 - 50) with 0 by lra. rewrite Rabs_R0.
  replace (((100 - 90) * 105 / 100) ^ 2 + (0 * 65 / 100) ^ 2)
    with (10.5 * 10.5) by lra.
  apply sqrt_square. lra.
Qed.

Lemma angle_90_50 : compute_shot_angle 90 50 = Ok (atan (76.86 / 96.8544)).
Proof.
  rewrite compute_shot_angle_ok.
  - cbv zeta. rewrite transform_fst, transform_snd. unfold angle_divisor.
    replace (50 - 50) with 0 by lra. rewrite Rabs_R0.
    replace (7.32 * ((100 - 90) * 105 / 100) /
             (((100 - 90) * 105 / 100) ^ 2 + (0 * 65 / 100) ^ 2 - (7.32 / 2) ^ 2))
      with (76.86 / 96.8544) by (field_simplify; lra).
    destruct (Rlt_dec (atan (76.86 / 96.8544)) 0) as [Hneg | _]; [| reflexivity].
    exfalso. assert (H : 0 < 76.86 / 96.8544) by lra.
    apply atan_increasing in H. rewrite atan_0 in H. lra.
  - unfold angle_divisor. rewrite transform_fst, transform_snd.
    replace (50 - 50) with 0 by lra. rewrite Rabs_R0. lra.
Qed.

End Shot_90_50.

(** C3, as the code has it.  The shot at (90, 50) is 10.5 m from the goal
    (5.25 m is the distance of the shot at (95, 50)), and its angle is
    arctan(76.86 / 96.8544), strictly between PI/6 and PI/4. *)
Theorem shot_90_50_features :
  compute_shot_distance 90 50 = 10.5 /\
  compute_shot_distance 95 50 = 5.25 /\
  exists a, compute_shot_angle 90 50 = Ok a /\
            a = atan (76.86 / 96.8544) /\ PI / 6 < a < PI / 4.
Proof.
  split; [exact distance_90_50 |]. split.
  - rewrite compute_shot_distance_eq.
    replace (50 - 50) with 0 by lra. rewrite Rabs_R0.
    replace (((100 - 95) * 105 / 100) ^ 2 + (0 * 65 / 100) ^ 2)
      with (5.25 * 5.25) by lra.
    apply sqrt_square. lra.
  - exists (atan (76.86 / 96.8544)). split; [exact angle_90_50 |].
    split; [reflexivity |]. split.
    + apply atan_above_PI6. lra.
    + apply atan_below_PI4. lra.
Qed.

(** C3 as stated fails: the distance at (90, 50) misses 5.25 by 5.25, more
    than a tolerance of 5, and the angle stays more than PI/4 below PI/2. *)
Lemma shot_90_50_not_as_stated :
  ~ Rabs (compute_shot_distance 90 50 - 5.25) <= 5 /\
  ~ (exists a, compute_shot_angle 90 50 = Ok a /\ Rabs (a - PI / 2) <= PI / 4).
Proof.
  split.
  - rewrite distance_90_50.
    replace (10.5 - 5.25) with 5.25 by lra.
    rewrite Rabs_pos_eq by lra. lra.
  - intros [a [Ha Hclose]]. rewrite angle_90_50 in Ha. injection Ha as <-.
    assert (Hq : 76.86 / 96.8544 < 1) by lra.
    apply atan_below_PI4 in Hq. pose proof PI_RGT_0 as Hpi.
    rewrite Rabs_left in Hclose by lra. lra.
Qed.

(** ** The served model *)

Section Sigmoid.


End Sigmoid.

(** ** The training rows *)

Section TrainingRows.

Lemma length_home_rows (epl : list Match) : length (home_rows epl) = length epl.
Proof. apply length_map. Qed.

Lemma length_away_rows (epl : list Match) : length (away_rows epl) = length epl.
Proof. apply length_map. Qed.

(** Row [i] of the table is match [i] seen from the home side; row
    [length epl + i] is the same match seen from the away side. *)
Lemma goal_model_data_home (epl : list Match) (i : nat) (m : Match) :
  nth_error epl i = Some m ->
  nth_error (goal_model_data epl) i =
    Some {| team := HomeTeam m; opponent := AwayTeam m;
            goals := HomeGoals m; home := 1 |}.
Proof.
  intros Hm. unfold goal_model_data.
  assert (Hi : (i < length epl)%nat)
    by (apply nth_error_Some; rewrite Hm; discriminate).
  rewrite nth_error_app1 by (rewrite length_home_rows; exact Hi).
  unfold home_rows. rewrite nth_error_map, Hm. reflexivity.
Qed.

Lemma goal_model_data_away (epl : list Match) (i : nat) (m : Match) :
  nth_error epl i = Some m ->
  nth_error (goal_model_data epl) (length epl + i) =
    Some {| team := AwayTeam m; opponent := HomeTeam m;
            goals := AwayGoals m; home := 0 |}.
Proof.
  intros Hm. unfold goal_model_data.
  rewrite nth_error_app2 by (rewrite length_home_rows; lia).
  rewrite length_home_rows.
  replace (length epl + i - length epl)%nat with i by lia.
  unfold away_rows. rewrite nth_error_map, Hm. reflexivity.
Qed.

(** Up to the order of the rows, the table is the matches replaced one by
    one by their two rows. *)
Lemma goal_model_data_pairs (epl : list Match) :
  Permutation
    (goal_model_data epl)
    (flat_map (fun m => [ {| team := HomeTeam m; opponent := AwayTeam m;
                             goals := HomeGoals m; home := 1 |};
                          {| team := AwayTeam m; opponent := HomeTeam m;
                             goals := AwayGoals m; home := 0 |} ]) epl).
Proof.
  unfold goal_model_data, home_rows, away_rows.
  induction epl as [| m epl IH]; [constructor |].
  cbn [map flat_map app]. constructor.
  apply Permutation_sym, Permutation_cons_app, Permutation_sym. exact IH.
Qed.

Example goal_model_data_two_results :
  goal_model_data Samples.two_results =
    [ {| team := "Man City"; opponent := "Arsenal"; goals := 3; home := 1 |};
      {| team := "Arsenal"; opponent := "Man City"; goals := 1; home := 1 |};
      {| team := "Arsenal"; opponent := "Man City"; goals := 0; home := 0 |};
      {| team := "Man City"; opponent := "Arsenal"; goals := 2; home := 0 |} ].
Proof. reflexivity. Qed.

End TrainingRows.

(** C7.  For every list of match records, [goal_model_data] holds exactly
    two rows per match, the home side's (team = home team, opponent = away
    team, home = 1, goals = home goals) and the away side's (team = away
    team, opponent = home team, home = 0, goals = away goals), and nothing
    else: it has twice as many rows as there are matches. *)
Theorem goal_model_data_two_rows_per_match (epl : list Match) :
  length (goal_model_data epl) = (2 * length epl)%nat /\
  Permutation
    (goal_model_data epl)
    (flat_map (fun m => [ {| team := HomeTeam m; opponent := AwayTeam m;
                             goals := HomeGoals m; home := 1 |};
                          {| team := AwayTeam m; opponent := HomeTeam m;
                             goals := AwayGoals m; home := 0 |} ]) epl) /\
  (forall i m, nth_error epl i = Some m ->
     nth_error (goal_model_data epl) i =
       Some {| team := HomeTeam m; opponent := AwayTeam m;
               goals := HomeGoals m; home := 1 |} /\
     nth_error (goal_model_data epl) (length epl + i) =
       Some {| team := AwayTeam m; opponent := HomeTeam m;
               goals := AwayGoals m; home := 0 |}).
Proof.
  split.
  - unfold goal_model_data.
    rewrite length_app, length_home_rows, length_away_rows. lia.
  - split; [apply goal_model_data_pairs |].
    intros i m Hm. split.
    + apply goal_model_data_home. exact Hm.
    + apply goal_model_data_away. exact Hm.
Qed.

(** ** The fitted model at prediction time *)

Section Prediction.

Variable goal_model : GLMResults.

Lemma level_effect_seen (levels : list (string * R)) (value : string) :
  seen levels value -> exists b, level_effect levels value = Ok b.
Proof.
  unfold seen. induction levels as [| [l b] rest IH]; cbn; [tauto |].
  intros [Heq | Hin].
  - subst l. rewrite String.eqb_refl. eauto.
  - destruct (String.eqb l value); [eauto | exact (IH Hin)].
Qed.

Lemma level_effect_unseen (levels : list (string * R)) (value : string) :
  ~ seen levels value -> level_effect levels value = Raise (PatsyError value).
Proof.
  unfold seen. induction levels as [| [l b] rest IH]; cbn; [reflexivity |].
  intros Hnot. destruct (String.eqb_spec l value) as [Heq | Hne].
  - exfalso. apply Hnot. left. exact Heq.
  - apply IH. intros Hin. apply Hnot. right. exact Hin.
Qed.

Lemma seen_dec (levels : list (string * R)) (value : string) :
  {seen levels value} + {~ seen levels value}.
Proof. apply in_dec, string_dec. Qed.

(** On fitted values [predict] returns the exponential of the linear
    predictor. *)
Lemma predict_seen (team opponent : string) (home : Z) :
  seen (team_levels goal_model) team ->
  seen (opponent_levels goal_model) opponent ->
  exists b_team b_opponent,
    level_effect (team_levels goal_model) team = Ok b_team /\
    level_effect (opponent_levels goal_model) opponent = Ok b_opponent /\
    predict goal_model team opponent home =
      Ok (exp (Intercept goal_model + b_team + b_opponent
               + home_coef goal_model * IZR home)).
Proof.
  intros Ht Ho.
  destruct (level_effect_seen _ _ Ht) as [b_team Hbt].
  destruct (level_effect_seen _ _ Ho) as [b_opp Hbo].
  exists b_team, b_opp. split; [exact Hbt |]. split; [exact Hbo |].
  unfold predict. rewrite Hbt, Hbo. reflexivity.
Qed.

(** Whatever [predict] returns is an exponential, hence positive. *)
Lemma predict_returns_exp (team opponent : string) (home : Z) (rate : R) :
  predict goal_model team opponent home = Ok rate ->
  exists eta, rate = exp eta.
Proof.
  unfold predict. intros H.
  destruct (level_effect (team_levels goal_model) team) as [e | b_team];
    [discriminate H |].
  destruct (level_effect (opponent_levels goal_model) opponent) as [e | b_opp];
    [discriminate H |].
  cbn in H. injection H as <-. eauto.
Qed.

Lemma predict_returns_positive (team opponent : string) (home : Z) (rate : R) :
  predict goal_model team opponent home = Ok rate -> 0 < rate.
Proof.
  intros H. destruct (predict_returns_exp _ _ _ _ H) as [eta ->]. apply exp_pos.
Qed.

(** [predict] raises on a value either factor was not fitted on. *)
Lemma predict_unseen (team opponent : string) (home : Z) :
  ~ seen (team_levels goal_model) team \/
  ~ seen (opponent_levels goal_model) opponent ->
  exists value,
    (value = team \/ value = opponent) /\
    predict goal_model team opponent home = Raise (PatsyError value).
Proof.
  intros Hun. unfold predict.
  destruct (seen_dec (team_levels goal_model) team) as [Ht | Ht].
  - destruct Hun as [Hun | Hun]; [contradiction |].
    destruct (level_effect_seen _ _ Ht) as [b ->].
    rewrite (level_effect_unseen _ _ Hun). exists opponent. split; [now right | reflexivity].
  - rewrite (level_effect_unseen _ _ Ht). exists team. split; [now left | reflexivity].
Qed.

End Prediction.

(** C6.  For every fitted model and every input whose team and opponent
    were among the fitted values, [predict] returns a rate that is the
    exponential of the linear predictor and is therefore strictly
    positive, whatever the coefficients and the home indicator. *)
Theorem predict_rate_positive (goal_model : GLMResults)
    (team opponent : string) (home : Z) :
  seen (team_levels goal_model) team ->
  seen (opponent_levels goal_model) opponent ->
  exists b_team b_opponent rate,
    level_effect (team_levels goal_model) team = Ok b_team /\
    level_effect (opponent_levels goal_model) opponent = Ok b_opponent /\
    predict goal_model team opponent home = Ok rate /\
    rate = exp (Intercept goal_model + b_team + b_opponent
                + home_coef goal_model * IZR home) /\
    0 < rate.
Proof.
  intros Ht Ho.
  destruct (predict_seen goal_model team opponent home Ht Ho)
    as (b_team & b_opp & Hbt & Hbo & Hp).
  exists b_team, b_opp. eexists. split; [exact Hbt |]. split; [exact Hbo |].
  split; [exact Hp |]. split; [reflexivity | apply exp_pos].
Qed.

Lemma predict_rate_positive_witness :
  exists b_team b_opponent rate,
    level_effect (team_levels Samples.two_teams) "Man City" = Ok b_team /\
    level_effect (opponent_levels Samples.two_teams) "Arsenal" = Ok b_opponent /\
    predict Samples.two_teams "Man City" "Arsenal" 1 = Ok rate /\
    rate = exp (Intercept Samples.two_teams + b_team + b_opponent
                + home_coef Samples.two_teams * IZR 1) /\
    0 < rate.
Proof.
  apply (predict_rate_positive Samples.two_teams "Man City" "Arsenal" 1);
    unfold seen; simpl; tauto.
Defined.

(** C9.  When the home or away side of a requested scoreline was not among
    the fitted values of the team or of the opponent factor,
    [simulate_matches] raises the unseen-category error naming that side
    and returns no matrix; no rate is made up for it. *)
Theorem simulate_matches_unseen_category (goal_model : GLMResults)
    (home_side away_side : string) (max_goals : Z) :
  ~ seen (team_levels goal_model) home_side \/
  ~ seen (opponent_levels goal_model) away_side \/
  ~ seen (team_levels goal_model) away_side \/
  ~ seen (opponent_levels goal_model) home_side ->
  (exists value,
     (value = home_side \/ value = away_side) /\
     simulate_matches goal_model home_side away_side max_goals
       = Raise (PatsyError value)) /\
  (forall M, simulate_matches goal_model home_side away_side max_goals <> Ok M).
Proof.
  intros Hun.
  assert (Hraise : exists value,
     (value = home_side \/ value = away_side) /\
     simulate_matches goal_model home_side away_side max_goals
       = Raise (PatsyError value)).
  { unfold simulate_matches.
    destruct (seen_dec (team_levels goal_model) home_side) as [H1 | H1];
      [destruct (seen_dec (opponent_levels goal_model) away_side) as [H2 | H2] |].
    - destruct (predict_seen goal_model home_side away_side 1 H1 H2)
        as (bt & bo & _ & _ & ->).
      destruct (predict_unseen goal_model away_side home_side 0) as (v & Hv & ->);
        [tauto |].
      exists v. split; [tauto | reflexivity].
    - destruct (predict_unseen goal_model home_side away_side 1) as (v & Hv & ->);
        [tauto |].
      exists v. split; [tauto | reflexivity].
    - destruct (predict_unseen goal_model home_side away_side 1) as (v & Hv & ->);
        [tauto |].
      exists v. split; [tauto | reflexivity]. }
  split; [exact Hraise |].
  intros M HM. destruct Hraise as (v & _ & Hv). rewrite Hv in HM. discriminate HM.
Qed.

Lemma simulate_matches_unseen_category_witness :
  (exists value,
     (value = "Man City"%string \/ value = "Leeds"%string) /\
     simulate_matches Samples.two_teams "Man City" "Leeds" 5
       = Raise (PatsyError value)) /\
  (forall M, simulate_matches Samples.two_teams "Man City" "Leeds" 5 <> Ok M).
Proof.
  apply (simulate_matches_unseen_category Samples.two_teams "Man City" "Leeds" 5).
  right. left. unfold seen. simpl.
  intros [H | [H | H]]; try discriminate H; exact H.
Defined.

(** ** The scoreline matrix *)

Section Scoreline.

Lemma simulate_matches_ok (goal_model : GLMResults)
    (home_side away_side : string) (max_goals : Z) (lh la : R) :
  predict goal_model home_side away_side 1 = Ok lh ->
  predict goal_model away_side home_side 0 = Ok la ->
  simulate_matches goal_model home_side away_side max_goals =
    Ok (outer (map (fun i => poisson_pmf i lh) (range0 (max_goals + 1))) (map (fun i => poisson_pmf i la) (range0 (max_goals + 1)))).
Proof.
  intros Hh Ha. unfold simulate_matches. rewrite Hh, Ha. reflexivity.
Qed.

Lemma nth_error_pmf_vector (mu : R) (n : Z) (i : nat) :
  (i < Z.to_nat n)%nat ->
  nth_error (map (fun i => poisson_pmf i mu) (range0 n)) i = Some (poisson_pmf i mu).
Proof.
  intros Hi. unfold range0. rewrite nth_error_map, nth_error_seq.
  destruct (Nat.ltb_spec i (Z.to_nat n)) as [_ | Hge]; [reflexivity | lia].
Qed.

Lemma In_pmf_vector (mu : R) (n : Z) (p : R) :
  In p (map (fun i => poisson_pmf i mu) (range0 n)) -> exists k, p = poisson_pmf k mu.
Proof.
  intros Hin. apply in_map_iff in Hin. destruct Hin as (k & <- & _). eauto.
Qed.

Lemma cell_outer (a b : list R) (i j : nat) (x y : R) :
  nth_error a i = Some x -> nth_error b j = Some y ->
  cell (outer a b) i j = Some (x * y).
Proof.
  intros Ha Hb. unfold cell, outer.
  rewrite nth_error_map, Ha. cbn. rewrite nth_error_map, Hb. reflexivity.
Qed.

Lemma cell_outer_inv (a b : list R) (i j : nat) (c : R) :
  cell (outer a b) i j = Some c ->
  exists x y, In x a /\ In y b /\ c = x * y.
Proof.
  unfold cell, outer. rewrite nth_error_map.
  destruct (nth_error a i) as [x |] eqn:Ha; cbn; [| discriminate].
  rewrite nth_error_map.
  destruct (nth_error b j) as [y |] eqn:Hb; cbn; [| discriminate].
  intros H. injection H as <-. exists x, y.
  split; [eapply nth_error_In; eassumption |].
  split; [eapply nth_error_In; eassumption | reflexivity].
Qed.

Lemma outer_rows (a b : list R) (row : list R) :
  In row (outer a b) -> length row = length b.
Proof.
  unfold outer. intros Hin. apply in_map_iff in Hin.
  destruct Hin as (x & <- & _). apply length_map.
Qed.

Lemma Rsum_nil : Rsum [] = 0.
Proof. reflexivity. Qed.

Lemma Rsum_cons (x : R) (l : list R) : Rsum (x :: l) = x + Rsum l.
Proof. reflexivity. Qed.

Lemma Rsum_app (l l' : list R) : Rsum (l ++ l') = Rsum l + Rsum l'.
Proof.
  unfold Rsum. induction l as [| x l IH]; cbn; [lra |]. rewrite IH. lra.
Qed.

Lemma Rsum_scale (x : R) (l : list R) :
  Rsum (map (fun y => x * y) l) = x * Rsum l.
Proof.
  unfold Rsum. induction l as [| y l IH]; cbn; [lra |]. rewrite IH. lra.
Qed.

Lemma Rsum_nonneg (l : list R) : (forall x, In x l -> 0 <= x) -> 0 <= Rsum l.
Proof.
  unfold Rsum. induction l as [| y l IH]; cbn; intros H; [lra |].
  assert (0 <= y) by (apply H; now left).
  assert (0 <= fold_right Rplus 0 l) by (apply IH; intros; apply H; now right).
  lra.
Qed.

(** The cells of an outer product add up to the product of the two sums. *)
Lemma matrix_sum_outer (a b : list R) :
  matrix_sum (outer a b) = Rsum a * Rsum b.
Proof.
  unfold matrix_sum, outer. induction a as [| x a IH]; cbn [map].
  - rewrite Rsum_nil. lra.
  - rewrite !Rsum_cons, IH, Rsum_scale. lra.
Qed.

Lemma poisson_pmf_nonneg (k : nat) (mu : R) : 0 <= mu -> 0 <= poisson_pmf k mu.
Proof.
  intros Hmu. unfold poisson_pmf.
  apply Rmult_le_pos; [apply Rmult_le_pos |].
  - apply pow_le. exact Hmu.
  - left. apply exp_pos.
  - left. apply Rinv_0_lt_compat, INR_fact_lt_0.
Qed.

Lemma poisson_pmf_0 (mu : R) : poisson_pmf 0 mu = exp (- mu).
Proof. unfold poisson_pmf. cbn. field. Qed.

(** The first [n + 1] probabilities are a partial sum of the exponential
    series times [exp (- mu)]. *)
Lemma Rsum_pmf_vector (mu : R) (n : nat) :
  Rsum (map (fun i => poisson_pmf i mu) (seq 0 (S n))) =
    exp (- mu) * sum_f_R0 (fun i => / INR (fact i) * mu ^ i) n.
Proof.
  induction n as [| n IH].
  - cbn. unfold Rsum. cbn. rewrite poisson_pmf_0. lra.
  - rewrite seq_S, map_app, Rsum_app, IH. cbn [map Nat.add].
    unfold Rsum at 1. cbn [fold_right sum_f_R0]. unfold poisson_pmf.
    unfold Rdiv. ring.
Qed.

Lemma exp_partial_sum (mu : R) (n : nat) :
  0 <= mu -> sum_f_R0 (fun i => / INR (fact i) * mu ^ i) n <= exp mu.
Proof.
  intros Hmu. apply sum_incr.
  - exact (proj2_sig (exist_exp mu)).
  - intros i. apply Rmult_le_pos.
    + left. apply Rinv_0_lt_compat, INR_fact_lt_0.
    + apply pow_le. exact Hmu.
Qed.

Lemma Rsum_pmf_vector_le_1 (mu : R) (n : Z) :
  0 <= mu -> 0 <= Rsum (map (fun i => poisson_pmf i mu) (range0 n)) <= 1.
Proof.
  intros Hmu. split.
  - apply Rsum_nonneg. intros p Hp.
    destruct (In_pmf_vector _ _ _ Hp) as [k ->].
    apply poisson_pmf_nonneg. exact Hmu.
  - unfold range0. destruct (Z.to_nat n) as [| m].
    + unfold Rsum. cbn. lra.
    + rewrite Rsum_pmf_vector.
      pose proof (exp_partial_sum mu m Hmu) as Hle.
      pose proof (exp_pos (- mu)) as Hpos.
      replace 1 with (exp (- mu) * exp mu)
        by (rewrite <- exp_plus; replace (- mu + mu) with 0 by lra; apply exp_0).
      apply Rmult_le_compat_l; [lra | exact Hle].
Qed.

End Scoreline.

(** C5.  For every matrix [simulate_matches] returns, from rates lh and la
    (positive, as every predicted rate is) and any max_goals >= 0: every
    cell is non-negative, the cells add up to at most 1, and cell (0, 0)
    is exp (- lh) * exp (- la), the product of the two probabilities of
    scoring no goal. *)
Theorem scoreline_matrix_invariants (goal_model : GLMResults)
    (home_side away_side : string) (max_goals : Z) (lh la : R) :
  predict goal_model home_side away_side 1 = Ok lh ->
  predict goal_model away_side home_side 0 = Ok la ->
  (0 <= max_goals)%Z ->
  0 < lh /\ 0 < la /\
  exists M,
    simulate_matches goal_model home_side away_side max_goals = Ok M /\
    (forall i j c, cell M i j = Some c -> 0 <= c) /\
    matrix_sum M <= 1 /\
    cell M 0 0 = Some (exp (- lh) * exp (- la)) /\
    poisson_pmf 0 lh = exp (- lh) /\ poisson_pmf 0 la = exp (- la).
Proof.
  intros Hh Ha Hmax.
  pose proof (predict_returns_positive _ _ _ _ _ Hh) as Hlh.
  pose proof (predict_returns_positive _ _ _ _ _ Ha) as Hla.
  split; [exact Hlh |]. split; [exact Hla |].
  eexists. split; [apply (simulate_matches_ok _ _ _ _ _ _ Hh Ha) |].
  split; [| split; [| split; [| split; apply poisson_pmf_0]]].
  - intros i j c Hc. apply cell_outer_inv in Hc.
    destruct Hc as (x & y & Hx & Hy & ->).
    destruct (In_pmf_vector _ _ _ Hx) as [kx ->].
    destruct (In_pmf_vector _ _ _ Hy) as [ky ->].
    apply Rmult_le_pos; apply poisson_pmf_nonneg; lra.
  - rewrite matrix_sum_outer.
    pose proof (Rsum_pmf_vector_le_1 lh (max_goals + 1)) as Hsh.
    pose proof (Rsum_pmf_vector_le_1 la (max_goals + 1)) as Hsa.
    nra.
  - rewrite <- (poisson_pmf_0 lh), <- (poisson_pmf_0 la).
    apply cell_outer; apply nth_error_pmf_vector; lia.
Qed.

Lemma two_teams_home_rate :
  predict Samples.two_teams "Man City" "Arsenal" 1 = Ok 2.
Proof.
  unfold predict. cbn.
  replace (0 + 0 + 0 + ln 2 * 1) with (ln 2) by lra.
  rewrite exp_ln by lra. reflexivity.
Qed.

Lemma two_teams_away_rate :
  predict Samples.two_teams "Arsenal" "Man City" 0 = Ok 1.
Proof.
  unfold predict. cbn.
  replace (0 + 0 + 0 + ln 2 * 0) with 0 by lra.
  rewrite exp_0. reflexivity.
Qed.

Lemma scoreline_matrix_invariants_witness :
  0 < 2 /\ 0 < 1 /\
  exists M,
    simulate_matches Samples.two_teams "Man City" "Arsenal" 5 = Ok M /\
    (forall i j c, cell M i j = Some c -> 0 <= c) /\
    matrix_sum M <= 1 /\
    cell M 0 0 = Some (exp (- 2) * exp (- 1)) /\
    poisson_pmf 0 2 = exp (- 2) /\ poisson_pmf 0 1 = exp (- 1).
Proof.
  apply (scoreline_matrix_invariants Samples.two_teams "Man City" "Arsenal" 5 2 1
           two_teams_home_rate two_teams_away_rate).
  lia.
Defined.

(** ** The rate-2 against rate-1 scoreline *)

Section ExpEnclosure.

Import Enclosure.

Lemma sq_floor_nonneg (z : Z) : (0 <= sq_floor z)%Z.
Proof.
  unfold sq_floor. apply Z.div_pos; [apply Z.square_nonneg | reflexivity].
Qed.

(** Squaring a fixed-point lower bound gives a lower bound of the square. *)
Lemma sq_floor_sound (z : Z) (e : R) :
  (0 <= z)%Z -> IZR z / IZR scale <= e ->
  IZR (sq_floor z) / IZR scale <= e * e.
Proof.
  intros Hz Hle.
  assert (Hs : 0 < IZR scale) by (apply IZR_lt; reflexivity).
  assert (Hw : 0 <= IZR z) by (apply IZR_le; exact Hz).
  assert (Hfl : IZR scale * IZR (sq_floor z) <= IZR z * IZR z).
  { rewrite <- !mult_IZR. apply IZR_le. unfold sq_floor.
    apply Z.mul_div_le. reflexivity. }
  set (a := IZR z / IZR scale) in *.
  assert (Ha : 0 <= a) by (apply Rmult_le_pos; [exact Hw | left; apply Rinv_0_lt_compat; exact Hs]).
  apply Rle_trans with (a * a); [| apply Rmult_le_compat; assumption].
  apply Rmult_le_reg_l with (IZR scale); [exact Hs |].
  replace (IZR scale * (IZR (sq_floor z) / IZR scale)) with (IZR (sq_floor z))
    by (field; lra).
  apply Rmult_le_reg_l with (IZR scale); [exact Hs |].
  replace (IZR scale * (IZR scale * (a * a))) with (IZR z * IZR z)
    by (unfold a; field; lra).
  exact Hfl.
Qed.

(** Squaring [k] times turns a lower bound of [exp a] into one of
    [exp (a * 2 ^ k)]. *)
Lemma iter_sq_floor_sound (a : R) (z : Z) (k : nat) :
  (0 <= z)%Z -> IZR z / IZR scale <= exp a ->
  (0 <= Nat.iter k sq_floor z)%Z /\
  IZR (Nat.iter k sq_floor z) / IZR scale <= exp (a * 2 ^ k).
Proof.
  intros Hz Hle. induction k as [| k [IHz IHle]].
  - cbn. rewrite Rmult_1_r. split; assumption.
  - cbn [Nat.iter nat_rect]. split; [apply sq_floor_nonneg |].
    replace (a * 2 ^ S k) with (a * 2 ^ k + a * 2 ^ k) by (cbn; lra).
    rewrite exp_plus. apply sq_floor_sound; assumption.
Qed.

Lemma exp_minus_3_lower : 0.04975 <= exp (- 3).
Proof.
  destruct (iter_sq_floor_sound (- 3 / 65536) 999954223632 16) as [_ H].
  - discriminate.
  - apply Rle_trans with (1 + - 3 / 65536); [unfold scale; lra |].
    apply exp_ineq1_le.
  - replace (- 3 / 65536 * 2 ^ 16) with (- 3) in H by (cbn; lra).
    assert (Hz : (49750000000 <= Nat.iter 16 sq_floor 999954223632)%Z)
      by (vm_compute; discriminate).
    apply IZR_le in Hz. unfold scale in H. lra.
Qed.

Lemma exp_3_lower : 20.07 <= exp 3.
Proof.
  destruct (iter_sq_floor_sound (3 / 65536) 1000045776367 16) as [_ H].
  - discriminate.
  - apply Rle_trans with (1 + 3 / 65536); [unfold scale; lra |].
    apply exp_ineq1_le.
  - replace (3 / 65536 * 2 ^ 16) with 3 in H by (cbn; lra).
    assert (Hz : (20070000000000 <= Nat.iter 16 sq_floor 1000045776367)%Z)
      by (vm_compute; discriminate).
    apply IZR_le in Hz. unfold scale in H. lra.
Qed.

Lemma exp_minus_3_upper : exp (- 3) <= 0.04985.
Proof.
  pose proof exp_3_lower as H3. pose proof (exp_pos (- 3)) as Hm.
  assert (E : exp (- 3) * exp 3 = 1)
    by (rewrite <- exp_plus; replace (- 3 + 3) with 0 by lra; apply exp_0).
  nra.
Qed.

(** Poisson(2; 2) * Poisson(1; 1), as the matrix holds it and as a number. *)
Lemma cell_2_1_value :
  poisson_pmf 2 2 * poisson_pmf 1 1 = (4 * exp (- 2) / 2) * (1 * exp (- 1) / 1) /\
  Rabs ((4 * exp (- 2) / 2) * (1 * exp (- 1) / 1) - 0.0996) <= 0.0001.
Proof.
  split.
  - unfold poisson_pmf. cbn.
    replace (- (2)) with (-2) by lra. replace (- (1)) with (-1) by lra. field.
  - replace ((4 * exp (- 2) / 2) * (1 * exp (- 1) / 1)) with (2 * exp (- 3)).
    + pose proof exp_minus_3_lower. pose proof exp_minus_3_upper.
      apply Rabs_le. lra.
    + replace (- 3) with (- 2 + - 1) by lra. rewrite exp_plus. field.
Qed.

End ExpEnclosure.

(** C1.  For every fitted model, home side, away side and max_goals >= 0,
    with lh = predict(team = home, opponent = away, home = 1) and
    la = predict(team = away, opponent = home, home = 0),
    [simulate_matches] returns a (max_goals + 1) x (max_goals + 1) matrix
    whose cell (i, j) is the product of the Poisson probabilities
    lh^i exp(-lh) / i! and la^j exp(-la) / j!.  With lh = 2, la = 1 and
    max_goals = 5 its (2, 1) cell is (4 exp(-2) / 2) * (1 exp(-1) / 1),
    within 1e-4 of 0.0996. *)
Theorem simulate_matches_cells (goal_model : GLMResults)
    (home_side away_side : string) (max_goals : Z) (lh la : R) :
  predict goal_model home_side away_side 1 = Ok lh ->
  predict goal_model away_side home_side 0 = Ok la ->
  (0 <= max_goals)%Z ->
  exists M,
    simulate_matches goal_model home_side away_side max_goals = Ok M /\
    Z.of_nat (length M) = (max_goals + 1)%Z /\
    (forall row, In row M -> Z.of_nat (length row) = (max_goals + 1)%Z) /\
    (forall i j : nat,
       (Z.of_nat i <= max_goals)%Z -> (Z.of_nat j <= max_goals)%Z ->
       cell M i j = Some ((lh ^ i * exp (- lh) / INR (fact i))
                          * (la ^ j * exp (- la) / INR (fact j)))) /\
    (lh = 2 -> la = 1 -> max_goals = 5%Z ->
     cell M 2 1 = Some ((4 * exp (- 2) / 2) * (1 * exp (- 1) / 1)) /\
     Rabs ((4 * exp (- 2) / 2) * (1 * exp (- 1) / 1) - 0.0996) <= 0.0001).
Proof.
  intros Hh Ha Hmax.
  eexists. split; [apply (simulate_matches_ok _ _ _ _ _ _ Hh Ha) |].
  assert (Hcell : forall i j : nat,
       (Z.of_nat i <= max_goals)%Z -> (Z.of_nat j <= max_goals)%Z ->
       cell (outer (map (fun i => poisson_pmf i lh) (range0 (max_goals + 1)))
                   (map (fun i => poisson_pmf i la) (range0 (max_goals + 1)))) i j
       = Some (poisson_pmf i lh * poisson_pmf j la)).
  { intros i j Hi Hj. apply cell_outer; apply nth_error_pmf_vector; lia. }
  split; [| split; [| split]].
  - unfold outer, range0. rewrite !length_map, length_seq. lia.
  - intros row Hrow. rewrite (outer_rows _ _ _ Hrow).
    unfold range0. rewrite length_map, length_seq. lia.
  - exact Hcell.
  - intros -> -> ->. destruct cell_2_1_value as [Hv Hn].
    split; [| exact Hn].
    rewrite <- Hv. apply (Hcell 2%nat 1%nat); lia.
Qed.

Lemma simulate_matches_cells_witness :
  exists M,
    simulate_matches Samples.two_teams "Man City" "Arsenal" 5 = Ok M /\
    Z.of_nat (length M) = (5 + 1)%Z /\
    (forall row, In row M -> Z.of_nat (length row) = (5 + 1)%Z) /\
    (forall i j : nat,
       (Z.of_nat i <= 5)%Z -> (Z.of_nat j <= 5)%Z ->
       cell M i j = Some ((2 ^ i * exp (- 2) / INR (fact i))
                          * (1 ^ j * exp (- 1) / INR (fact j)))) /\
    (2 = 2 -> 1 = 1 -> 5%Z = 5%Z ->
     cell M 2 1 = Some ((4 * exp (- 2) / 2) * (1 * exp (- 1) / 1)) /\
     Rabs ((4 * exp (- 2) / 2) * (1 * exp (- 1) / 1) - 0.0996) <= 0.0001).
Proof.
  apply (simulate_matches_cells Samples.two_teams "Man City" "Arsenal" 5 2 1
           two_teams_home_rate two_teams_away_rate).
  lia.
Defined.

(** * Further properties of the notebooks' code *)

(** ** Shot geometry *)

Section GeometryMore.

Lemma Rabs_centre_bound (y : R) : 0 <= y <= 100 -> 0 <= Rabs (y - 50) <= 50.
Proof.
  intros Hy. split; [apply Rabs_pos |]. apply Rabs_le. lra.
Qed.

Lemma transform_mirror (x y : R) :
  transform_coordinates_for_computation x (100 - y) =
  transform_coordinates_for_computation x y.
Proof.
  unfold transform_coordinates_for_computation.
  replace (100 - y - 50) with (- (y - 50)) by lra. rewrite Rabs_Ropp. reflexivity.
Qed.

End GeometryMore.

(** On the declared domain the transformed coordinates are metres on a
    105 x 65 pitch: the first lies in [0, 105], the second in [0, 32.5],
    and the distance to the goal is at least each of them and at most
    110. *)
Theorem transform_and_distance_bounds (x y : R) :
  0 <= x <= 100 -> 0 <= y <= 100 ->
  let t_x := fst (transform_coordinates_for_computation x y) in
  let t_y := snd (transform_coordinates_for_computation x y) in
  0 <= t_x <= 105 /\ 0 <= t_y <= 32.5 /\
  t_x <= compute_shot_distance x y /\ t_y <= compute_shot_distance x y /\
  compute_shot_distance x y <= 110.
Proof.
  intros Hx Hy t_x t_y.
  pose proof (Rabs_centre_bound y Hy) as Hc.
  assert (Htx : 0 <= t_x <= 105) by (unfold t_x; rewrite transform_fst; lra).
  assert (Hty : 0 <= t_y <= 32.5) by (unfold t_y; rewrite transform_snd; lra).
  split; [exact Htx |]. split; [exact Hty |].
  assert (Hd : compute_shot_distance x y = sqrt (t_x ^ 2 + t_y ^ 2)) by reflexivity.
  rewrite Hd.
  assert (Hsq : forall a, 0 <= a -> sqrt (a * a) = a) by (intros; now apply sqrt_square).
  split; [| split].
  - rewrite <- (Hsq t_x) at 1 by lra. apply sqrt_le_1_alt. nra.
  - rewrite <- (Hsq t_y) at 1 by lra. apply sqrt_le_1_alt. nra.
  - rewrite <- (Hsq 110) by lra. apply sqrt_le_1_alt. nra.
Qed.

Lemma transform_and_distance_bounds_witness :
  let t_x := fst (transform_coordinates_for_computation 90 50) in
  let t_y := snd (transform_coordinates_for_computation 90 50) in
  0 <= t_x <= 105 /\ 0 <= t_y <= 32.5 /\
  t_x <= compute_shot_distance 90 50 /\ t_y <= compute_shot_distance 90 50 /\
  compute_shot_distance 90 50 <= 110.
Proof. apply (transform_and_distance_bounds 90 50); lra. Defined.

(** Distance and angle do not tell the two halves of the pitch apart: the
    shot at (x, 100 - y) has the distance and the angle (or the same
    error) of the shot at (x, y). *)
Theorem shot_features_mirror (x y : R) :
  compute_shot_distance x (100 - y) = compute_shot_distance x y /\
  compute_shot_angle x (100 - y) = compute_shot_angle x y.
Proof.
  unfold compute_shot_distance, compute_shot_angle.
  rewrite transform_mirror. split; reflexivity.
Qed.

(** The distance is 0 at the centre of the goal, (100, 50), and nowhere
    else. *)
Theorem compute_shot_distance_zero (x y : R) :
  compute_shot_distance x y = 0 <-> x = 100 /\ y = 50.
Proof.
  rewrite compute_shot_distance_eq. split.
  - intros H. apply sqrt_eq_0 in H; [| apply sum_squares_nonneg].
    assert (Hx : (100 - x) * 105 / 100 = 0) by nra.
    assert (Hy : Rabs (y - 50) * 65 / 100 = 0) by nra.
    split; [lra |].
    assert (Ha : Rabs (y - 50) = 0) by lra.
    destruct (Req_dec_T (y - 50) 0) as [E | NE]; [lra |].
    apply Rabs_no_R0 in NE. contradiction.
  - intros [-> ->]. replace (50 - 50) with 0 by lra. rewrite Rabs_R0.
    replace (((100 - 100) * 105 / 100) ^ 2 + (0 * 65 / 100) ^ 2) with 0 by lra.
    apply sqrt_0.
Qed.

Section SubtendedAngle.

(** The difference of two arctangents, when it is acute. *)
Lemma atan_diff_acute (u v : R) :
  v < u -> 0 < 1 + u * v ->
  atan u - atan v = atan ((u - v) / (1 + u * v)).
Proof.
  intros Huv Hpos. pose proof PI_RGT_0 as Hpi.
  pose proof (atan_bound u) as [Hul Huh]. pose proof (atan_bound v) as [Hvl Hvh].
  pose proof (atan_increasing _ _ Huv) as Hinc.
  assert (Hup : atan u - atan v < PI / 2).
  { destruct (Rle_lt_dec 0 v) as [Hv | Hv].
    - assert (0 <= atan v).
      { destruct Hv as [Hv | <-]; [| rewrite atan_0; lra].
        apply atan_increasing in Hv. rewrite atan_0 in Hv. lra. }
      lra.
    - destruct (Rle_lt_dec u 0) as [Hu | Hu].
      + assert (atan u <= 0).
        { destruct Hu as [Hu | ->]; [| rewrite atan_0; lra].
          apply atan_increasing in Hu. rewrite atan_0 in Hu. lra. }
        lra.
      + assert (Hlt : u < / (- v)).
        { apply Rmult_lt_reg_r with (- v); [lra |].
          rewrite Rinv_l by lra. lra. }
        apply atan_increasing in Hlt.
        rewrite atan_inv in Hlt by lra. rewrite atan_opp in Hlt. lra. }
  assert (H := atan_sub_correct u v).
  unfold atan_sub in H. rewrite H; try lra.
  apply atan_bound.
Qed.

(** The same difference, when it is obtuse. *)
Lemma atan_diff_obtuse (u v : R) :
  v < 0 -> 0 < u -> 1 + u * v < 0 ->
  atan u - atan v = PI + atan ((u - v) / (1 + u * v)).
Proof.
  intros Hv Hu Hneg.
  assert (Hiu : 0 < / u) by (apply Rinv_0_lt_compat; exact Hu).
  assert (Hiv : / v < 0) by (apply Rinv_lt_0_compat; exact Hv).
  assert (Hprod : / u * / v = / (u * v)) by (field; lra).
  assert (Huv : u * v < -1) by lra.
  assert (Hinv : -1 < / (u * v)).
  { apply Rmult_lt_reg_r with (- (u * v)); [lra |].
    replace (/ (u * v) * - (u * v)) with (-1) by (field; lra). lra. }
  pose proof (atan_diff_acute (/ u) (/ v)) as Hacute.
  rewrite Hprod in Hacute.
  assert (Hq : (/ u - / v) / (1 + / (u * v)) = - ((u - v) / (1 + u * v)))
    by (field; repeat split; lra).
  rewrite Hq, atan_opp in Hacute.
  pose proof (atan_inv u Hu) as Hau.
  assert (Hav : atan (/ v) = - (PI / 2) - atan v).
  { replace (/ v) with (- / (- v)) by (field; lra).
    rewrite atan_opp, atan_inv by lra. rewrite atan_opp. lra. }
  rewrite Hau, Hav in Hacute.
  assert (atan u - atan v = PI + atan ((u - v) / (1 + u * v))); [| assumption].
  assert (H := Hacute ltac:(lra) ltac:(lra)). lra.
Qed.

End SubtendedAngle.

Section AngleBranches.

(** The branch [compute_shot_angle] takes, by the sign of the divisor. *)
Lemma compute_shot_angle_by_sign (x y : R) :
  x < 100 ->
  let t_x := fst (transform_coordinates_for_computation x y) in
  let t_y := snd (transform_coordinates_for_computation x y) in
  let q := 7.32 * t_x / angle_divisor t_x t_y in
  (0 < angle_divisor t_x t_y ->
   compute_shot_angle x y = Ok (atan q) /\ 0 < atan q < PI / 2) /\
  (angle_divisor t_x t_y < 0 ->
   compute_shot_angle x y = Ok (PI + atan q) /\ PI / 2 < PI + atan q < PI).
Proof.
  intros Hx t_x t_y q.
  assert (Htx : 0 < t_x) by (unfold t_x; rewrite transform_fst; lra).
  pose proof (atan_bound q) as [Hlo Hhi].
  split; intros Hd.
  - assert (Hq : 0 < q).
    { unfold q. apply Rdiv_lt_0_compat; [lra | exact Hd]. }
    apply atan_increasing in Hq. rewrite atan_0 in Hq.
    rewrite compute_shot_angle_ok by (fold t_x t_y; lra). cbv zeta. fold t_x t_y q.
    destruct (Rlt_dec (atan q) 0) as [Hneg | _]; [lra |].
    split; [reflexivity | lra].
  - assert (Hq : q < 0).
    { assert (Hp : 0 < 7.32 * t_x / (- angle_divisor t_x t_y))
        by (apply Rdiv_lt_0_compat; lra).
      replace q with (- (7.32 * t_x / (- angle_divisor t_x t_y)))
        by (unfold q; field; lra).
      lra. }
    apply atan_increasing in Hq. rewrite atan_0 in Hq.
    rewrite compute_shot_angle_ok by (fold t_x t_y; lra). cbv zeta. fold t_x t_y q.
    destruct (Rlt_dec (atan q) 0) as [_ | Hpos]; [| lra].
    split; [reflexivity | lra].
Qed.

End AngleBranches.

(** In exact arithmetic: in front of the goal line and off the circle over
    the goal mouth, the branch-corrected arctangent is the difference of
    the directions of the two posts. *)
Lemma exact_angle_subtended (x y : R) :
  x < 100 ->
  let t_x := fst (transform_coordinates_for_computation x y) in
  let t_y := snd (transform_coordinates_for_computation x y) in
  angle_divisor t_x t_y <> 0 ->
  compute_shot_angle x y =
    Ok (atan ((t_y + 7.32 / 2) / t_x) - atan ((t_y - 7.32 / 2) / t_x)).
Proof.
  intros Hx t_x t_y Hd.
  assert (Htx : 0 < t_x) by (unfold t_x; rewrite transform_fst; lra).
  set (u := (t_y + 7.32 / 2) / t_x). set (v := (t_y - 7.32 / 2) / t_x).
  assert (Huv : v < u).
  { unfold u, v, Rdiv. apply Rmult_lt_compat_r; [apply Rinv_0_lt_compat; exact Htx | lra]. }
  assert (H1 : 1 + u * v = angle_divisor t_x t_y / (t_x * t_x))
    by (unfold u, v, angle_divisor; field; lra).
  assert (Hq : (u - v) / (1 + u * v) = 7.32 * t_x / angle_divisor t_x t_y).
  { rewrite H1. unfold u, v. field. split; [exact Hd | lra]. }
  assert (Hsq : 0 < / (t_x * t_x)) by (apply Rinv_0_lt_compat; nra).
  destruct (compute_shot_angle_by_sign x y Hx) as [Hacute Hobtuse].
  fold t_x t_y in Hacute, Hobtuse. cbv zeta in Hacute, Hobtuse.
  destruct (Rtotal_order (angle_divisor t_x t_y) 0) as [Hneg | [Hz | Hpos]];
    [| contradiction |].
  - destruct (Hobtuse Hneg) as [-> _]. f_equal. rewrite <- Hq.
    assert (Hprod : 1 + u * v < 0).
    { rewrite H1. unfold Rdiv.
      replace (angle_divisor t_x t_y * / (t_x * t_x))
        with (- ((- angle_divisor t_x t_y) * / (t_x * t_x))) by ring.
      assert (0 < - angle_divisor t_x t_y * / (t_x * t_x))
        by (apply Rmult_lt_0_compat; lra).
      lra. }
    assert (Hu : 0 < u /\ v < 0).
    { destruct (Rle_lt_dec u 0) as [Hu0 | Hu0].
      - exfalso. assert (0 <= u * v) by nra. lra.
      - split; [exact Hu0 |].
        destruct (Rle_lt_dec 0 v) as [Hv0 | Hv0]; [| exact Hv0].
        exfalso. assert (0 <= u * v) by nra. lra. }
    symmetry. apply atan_diff_obtuse; tauto.
  - destruct (Hacute Hpos) as [-> _]. f_equal. rewrite <- Hq.
    symmetry. apply atan_diff_acute; [exact Huv |].
    rewrite H1. apply Rmult_lt_0_compat; assumption.
Qed.

(** On the goal line the angle is 0 wherever the division goes through:
    beside the goal, and also between the posts. *)
Theorem compute_shot_angle_on_goal_line (y : R) :
  Rabs (y - 50) * 65 / 100 <> 7.32 / 2 ->
  compute_shot_angle 100 y = Ok 0.
Proof.
  intros Hy.
  assert (Hd : angle_divisor (fst (transform_coordinates_for_computation 100 y))
                             (snd (transform_coordinates_for_computation 100 y)) <> 0).
  { rewrite transform_fst, transform_snd. unfold angle_divisor.
    pose proof (Rabs_pos (y - 50)) as Habs.
    intros H. apply Hy.
    assert (Hsq : (Rabs (y - 50) * 65 / 100) ^ 2 = (7.32 / 2) ^ 2) by lra.
    assert (0 <= Rabs (y - 50) * 65 / 100) by lra.
    nra. }
  rewrite (compute_shot_angle_ok 100 y Hd). cbv zeta. rewrite transform_fst.
  replace (7.32 * ((100 - 100) * 105 / 100) / _) with 0 by (unfold Rdiv; ring).
  rewrite atan_0. destruct (Rlt_dec 0 0) as [H | _]; [lra | reflexivity].
Qed.

Lemma compute_shot_angle_on_goal_line_witness : compute_shot_angle 100 50 = Ok 0.
Proof.
  apply (compute_shot_angle_on_goal_line 50).
  replace (50 - 50) with 0 by lra. rewrite Rabs_R0. lra.
Defined.

(** ** Serving the model: errors and the stored parameters *)

Section ServingMore.

Lemma series_get_error (s : Series) (l : string) (e : exn) :
  series_get s l = Raise e -> e = KeyError l.
Proof.
  induction s as [| [k v] rest IH]; cbn.
  - intros H. injection H as <-. reflexivity.
  - destruct (String.eqb k l); [discriminate | exact IH].
Qed.

Lemma series_get_cases (s : Series) (l : string) :
  (exists b, series_get s l = Ok b) \/ series_get s l = Raise (KeyError l).
Proof.
  destruct (series_get s l) as [e | b] eqn:E.
  - right. apply series_get_error in E. subst e. reflexivity.
  - left. exists b. reflexivity.
Qed.

End ServingMore.

(** ** The training rows, the model and the matrix: more *)

Section TrainingRowsMore.

Lemma Zsum_app (l l' : list Z) :
  ShotCounts.Zsum (l ++ l') = (ShotCounts.Zsum l + ShotCounts.Zsum l')%Z.
Proof.
  unfold ShotCounts.Zsum. induction l as [| z l IH]; cbn; [reflexivity |].
  rewrite IH. lia.
Qed.

End TrainingRowsMore.

(** No goal is lost or invented: the goals of all rows of
    [goal_model_data] add up to the home goals plus the away goals of the
    season. *)
Theorem goal_model_data_total_goals (epl : list Match) :
  ShotCounts.Zsum (map goals (goal_model_data epl)) =
    (ShotCounts.Zsum (map HomeGoals epl) + ShotCounts.Zsum (map AwayGoals epl))%Z.
Proof.
  unfold goal_model_data, home_rows, away_rows.
  rewrite map_app, Zsum_app, !map_map. reflexivity.
Qed.

(** The two factors of the model see the same sides: listing the [team]
    of every row gives the same names, as often, as listing the
    [opponent] of every row. *)
Theorem goal_model_data_team_opponent (epl : list Match) :
  Permutation (map team (goal_model_data epl))
              (map opponent (goal_model_data epl)).
Proof.
  unfold goal_model_data, home_rows, away_rows.
  rewrite !map_app, !map_map. cbn [team opponent].
  apply Permutation_app_comm.
Qed.

Section PredictionMore.

Variable goal_model : GLMResults.

Lemma predict_returns_seen (team opponent : string) (home : Z) (rate : R) :
  predict goal_model team opponent home = Ok rate ->
  seen (team_levels goal_model) team /\ seen (opponent_levels goal_model) opponent.
Proof.
  intros H.
  destruct (seen_dec (team_levels goal_model) team) as [Ht | Ht];
    [destruct (seen_dec (opponent_levels goal_model) opponent) as [Ho | Ho] |].
  - split; assumption.
  - destruct (predict_unseen goal_model team opponent home) as (v & _ & Hv);
      [right; exact Ho |].
    rewrite Hv in H. discriminate H.
  - destruct (predict_unseen goal_model team opponent home) as (v & _ & Hv);
      [left; exact Ht |].
    rewrite Hv in H. discriminate H.
Qed.

Lemma simulate_matches_returns_rates (home_side away_side : string)
    (max_goals : Z) (M : list (list R)) :
  simulate_matches goal_model home_side away_side max_goals = Ok M ->
  exists lh la,
    predict goal_model home_side away_side 1 = Ok lh /\
    predict goal_model away_side home_side 0 = Ok la.
Proof.
  unfold simulate_matches. intros H.
  destruct (predict goal_model home_side away_side 1) as [e | lh];
    [discriminate H |].
  destruct (predict goal_model away_side home_side 0) as [e | la];
    [discriminate H |].
  eauto.
Qed.

End PredictionMore.

(** Home advantage is one factor for every fixture: the rate predicted for
    a side at home is exp(home coefficient) times the rate predicted for
    the same side against the same opponent away. *)
Theorem predict_home_advantage (goal_model : GLMResults)
    (team opponent : string) (at_home away : R) :
  predict goal_model team opponent 1 = Ok at_home ->
  predict goal_model team opponent 0 = Ok away ->
  at_home = exp (home_coef goal_model) * away.
Proof.
  intros H1 H0.
  destruct (predict_returns_seen _ _ _ _ _ H1) as [Ht Ho].
  destruct (predict_seen goal_model team opponent 1 Ht Ho)
    as (bt & bo & Hbt & Hbo & Hp1).
  destruct (predict_seen goal_model team opponent 0 Ht Ho)
    as (bt' & bo' & Hbt' & Hbo' & Hp0).
  rewrite Hbt in Hbt'. injection Hbt' as <-.
  rewrite Hbo in Hbo'. injection Hbo' as <-.
  rewrite Hp1 in H1. injection H1 as <-.
  rewrite Hp0 in H0. injection H0 as <-.
  rewrite <- exp_plus. f_equal. lra.
Qed.

Lemma two_teams_home_rate_away :
  predict Samples.two_teams "Man City" "Arsenal" 0 = Ok 1.
Proof.
  unfold predict. cbn.
  replace (0 + 0 + 0 + ln 2 * 0) with 0 by lra.
  rewrite exp_0. reflexivity.
Qed.

Lemma predict_home_advantage_witness :
  2 = exp (home_coef Samples.two_teams) * 1.
Proof.
  exact (predict_home_advantage Samples.two_teams "Man City" "Arsenal" 2 1
           two_teams_home_rate two_teams_home_rate_away).
Defined.

(** [simulate_matches] returns a matrix exactly when both sides are known
    to both factors of the model: the home side as a team and as an
    opponent, and the away side likewise. *)
Theorem simulate_matches_returns_iff (goal_model : GLMResults)
    (home_side away_side : string) (max_goals : Z) :
  (exists M, simulate_matches goal_model home_side away_side max_goals = Ok M) <->
  seen (team_levels goal_model) home_side /\
  seen (opponent_levels goal_model) away_side /\
  seen (team_levels goal_model) away_side /\
  seen (opponent_levels goal_model) home_side.
Proof.
  split.
  - intros [M HM].
    destruct (simulate_matches_returns_rates _ _ _ _ _ HM) as (lh & la & Hh & Ha).
    apply predict_returns_seen in Hh. apply predict_returns_seen in Ha. tauto.
  - intros (H1 & H2 & H3 & H4).
    destruct (predict_seen goal_model home_side away_side 1 H1 H2)
      as (? & ? & _ & _ & Hh).
    destruct (predict_seen goal_model away_side home_side 0 H3 H4)
      as (? & ? & _ & _ & Ha).
    eexists. apply (simulate_matches_ok _ _ _ _ _ _ Hh Ha).
Qed.

(** [max_goals] is not checked: for a negative [max_goals] and known sides
    [simulate_matches] returns the empty matrix. *)
Theorem simulate_matches_negative_max_goals (goal_model : GLMResults)
    (home_side away_side : string) (max_goals : Z) (lh la : R) :
  predict goal_model home_side away_side 1 = Ok lh ->
  predict goal_model away_side home_side 0 = Ok la ->
  (max_goals < 0)%Z ->
  simulate_matches goal_model home_side away_side max_goals = Ok [].
Proof.
  intros Hh Ha Hneg. rewrite (simulate_matches_ok _ _ _ _ _ _ Hh Ha).
  unfold range0. replace (Z.to_nat (max_goals + 1)) with 0%nat by lia.
  reflexivity.
Qed.

Lemma simulate_matches_negative_max_goals_witness :
  simulate_matches Samples.two_teams "Man City" "Arsenal" (-1) = Ok [].
Proof.
  apply (simulate_matches_negative_max_goals Samples.two_teams
           "Man City" "Arsenal" (-1) 2 1
           two_teams_home_rate two_teams_away_rate).
  lia.
Defined.

Section ScorelineMore.

Lemma cell_outer_nth (a b : list R) (i j : nat) (c : R) :
  cell (outer a b) i j = Some c ->
  exists x y, nth_error a i = Some x /\ nth_error b j = Some y /\ c = x * y.
Proof.
  unfold cell, outer. rewrite nth_error_map.
  destruct (nth_error a i) as [x |]; cbn; [| discriminate].
  rewrite nth_error_map.
  destruct (nth_error b j) as [y |]; cbn; [| discriminate].
  intros H. injection H as <-. eauto.
Qed.

Lemma poisson_pmf_pos (k : nat) (mu : R) : 0 < mu -> 0 < poisson_pmf k mu.
Proof.
  intros Hmu. unfold poisson_pmf.
  apply Rmult_lt_0_compat; [apply Rmult_lt_0_compat |].
  - apply pow_lt. exact Hmu.
  - apply exp_pos.
  - apply Rinv_0_lt_compat, INR_fact_lt_0.
Qed.

(** One more goal multiplies the probability by rate / goals. *)
Lemma poisson_pmf_succ (k : nat) (mu : R) :
  poisson_pmf (S k) mu = poisson_pmf k mu * mu / INR (S k).
Proof.
  unfold poisson_pmf. rewrite fact_simpl, mult_INR. cbn [pow].
  pose proof (INR_fact_lt_0 k). pose proof (lt_0_INR (S k) ltac:(lia)).
  field. split; lra.
Qed.

Lemma nth_error_pmf_vector_inv (mu : R) (n : Z) (i : nat) (p : R) :
  nth_error (map (fun k => poisson_pmf k mu) (range0 n)) i = Some p ->
  (i < Z.to_nat n)%nat /\ p = poisson_pmf i mu.
Proof.
  unfold range0. rewrite nth_error_map, nth_error_seq.
  destruct (Nat.ltb_spec i (Z.to_nat n)) as [Hlt | Hge]; cbn; [| discriminate].
  intros H. injection H as <-. split; [exact Hlt | reflexivity].
Qed.

End ScorelineMore.

(** The two sides score independently in the matrix: any four cells at
    the corners of a rectangle satisfy
    cell(i, j) * cell(k, l) = cell(i, l) * cell(k, j). *)
Theorem simulate_matches_independence (goal_model : GLMResults)
    (home_side away_side : string) (max_goals : Z) (M : list (list R))
    (i j k l : nat) (c_ij c_kl c_il c_kj : R) :
  simulate_matches goal_model home_side away_side max_goals = Ok M ->
  cell M i j = Some c_ij -> cell M k l = Some c_kl ->
  cell M i l = Some c_il -> cell M k j = Some c_kj ->
  c_ij * c_kl = c_il * c_kj.
Proof.
  intros HM Hij Hkl Hil Hkj.
  destruct (simulate_matches_returns_rates _ _ _ _ _ HM) as (lh & la & Hh & Ha).
  rewrite (simulate_matches_ok _ _ _ _ _ _ Hh Ha) in HM. injection HM as <-.
  apply cell_outer_nth in Hij, Hkl, Hil, Hkj.
  destruct Hij as (x1 & y1 & Hx1 & Hy1 & ->).
  destruct Hkl as (x2 & y2 & Hx2 & Hy2 & ->).
  destruct Hil as (x3 & y3 & Hx3 & Hy3 & ->).
  destruct Hkj as (x4 & y4 & Hx4 & Hy4 & ->).
  rewrite Hx1 in Hx3. injection Hx3 as <-.
  rewrite Hx2 in Hx4. injection Hx4 as <-.
  rewrite Hy2 in Hy3. injection Hy3 as <-.
  rewrite Hy1 in Hy4. injection Hy4 as <-.
  ring.
Qed.

(** Going one home goal up multiplies a cell by lh / (i + 1), so the
    scoreline with one more home goal is at most as likely exactly when
    the home rate is at most i + 1; the same holds along a row with the
    away rate. *)
Theorem simulate_matches_next_goal (goal_model : GLMResults)
    (home_side away_side : string) (max_goals : Z) (lh la : R) (i j : nat) :
  predict goal_model home_side away_side 1 = Ok lh ->
  predict goal_model away_side home_side 0 = Ok la ->
  (Z.of_nat i < max_goals)%Z -> (Z.of_nat j < max_goals)%Z ->
  exists M c c_home c_away,
    simulate_matches goal_model home_side away_side max_goals = Ok M /\
    cell M i j = Some c /\
    cell M (S i) j = Some c_home /\ cell M i (S j) = Some c_away /\
    c_home = c * lh / INR (S i) /\ c_away = c * la / INR (S j) /\
    (c_home <= c <-> lh <= INR (S i)) /\ (c_away <= c <-> la <= INR (S j)).
Proof.
  intros Hh Ha Hi Hj.
  pose proof (predict_returns_positive _ _ _ _ _ Hh) as Hlh.
  pose proof (predict_returns_positive _ _ _ _ _ Ha) as Hla.
  pose proof (poisson_pmf_pos i lh Hlh) as Hpi.
  pose proof (poisson_pmf_pos j la Hla) as Hpj.
  pose proof (lt_0_INR (S i) ltac:(lia)) as Hsi.
  pose proof (lt_0_INR (S j) ltac:(lia)) as Hsj.
  exists (outer (map (fun k => poisson_pmf k lh) (range0 (max_goals + 1)))
                (map (fun k => poisson_pmf k la) (range0 (max_goals + 1)))),
         (poisson_pmf i lh * poisson_pmf j la),
         (poisson_pmf (S i) lh * poisson_pmf j la),
         (poisson_pmf i lh * poisson_pmf (S j) la).
  split; [apply (simulate_matches_ok _ _ _ _ _ _ Hh Ha) |].
  split; [apply cell_outer; apply nth_error_pmf_vector; lia |].
  split; [apply cell_outer; apply nth_error_pmf_vector; lia |].
  split; [apply cell_outer; apply nth_error_pmf_vector; lia |].
  rewrite !poisson_pmf_succ.
  set (p := poisson_pmf i lh) in *. set (q := poisson_pmf j la) in *.
  assert (Hpq : 0 < p * q) by (apply Rmult_lt_0_compat; assumption).
  assert (Eh : p * lh / INR (S i) * q = p * q * lh / INR (S i)) by (field; lra).
  assert (Ea : p * (q * la / INR (S j)) = p * q * la / INR (S j)) by (field; lra).
  split; [exact Eh |]. split; [exact Ea |].
  rewrite Eh, Ea. split; split; intros H.
  - apply Rmult_le_reg_l with (p * q / INR (S i)).
    + apply Rdiv_lt_0_compat; assumption.
    + replace (p * q / INR (S i) * lh) with (p * q * lh / INR (S i)) by (field; lra).
      replace (p * q / INR (S i) * INR (S i)) with (p * q) by (field; lra).
      exact H.
  - apply Rmult_le_reg_r with (INR (S i)); [exact Hsi |].
    replace (p * q * lh / INR (S i) * INR (S i)) with (p * q * lh) by (field; lra).
    apply Rmult_le_compat_l; lra.
  - apply Rmult_le_reg_l with (p * q / INR (S j)).
    + apply Rdiv_lt_0_compat; assumption.
    + replace (p * q / INR (S j) * la) with (p * q * la / INR (S j)) by (field; lra).
      replace (p * q / INR (S j) * INR (S j)) with (p * q) by (field; lra).
      exact H.
  - apply Rmult_le_reg_r with (INR (S j)); [exact Hsj |].
    replace (p * q * la / INR (S j) * INR (S j)) with (p * q * la) by (field; lra).
    apply Rmult_le_compat_l; lra.
Qed.

Lemma simulate_matches_next_goal_witness :
  exists M c c_home c_away,
    simulate_matches Samples.two_teams "Man City" "Arsenal" 5 = Ok M /\
    cell M 1 0 = Some c /\
    cell M 2 0 = Some c_home /\ cell M 1 1 = Some c_away /\
    c_home = c * 2 / INR 2 /\ c_away = c * 1 / INR 1 /\
    (c_home <= c <-> 2 <= INR 2) /\ (c_away <= c <-> 1 <= INR 1).
Proof.
  apply (simulate_matches_next_goal Samples.two_teams "Man City" "Arsenal" 5 2 1
           1 0 two_teams_home_rate two_teams_away_rate); lia.
Defined.

Lemma simulate_matches_independence_witness :
  poisson_pmf 0 2 * poisson_pmf 0 1 * (poisson_pmf 1 2 * poisson_pmf 1 1) =
  poisson_pmf 0 2 * poisson_pmf 1 1 * (poisson_pmf 1 2 * poisson_pmf 0 1).
Proof.
  apply (simulate_matches_independence Samples.two_teams "Man City" "Arsenal" 5
           (outer (map (fun i => poisson_pmf i 2) (range0 (5 + 1)))
                  (map (fun i => poisson_pmf i 1) (range0 (5 + 1))))
           0 0 1 1);
    [apply (simulate_matches_ok _ _ _ _ _ _ two_teams_home_rate two_teams_away_rate)
    | reflexivity ..].
Defined.

(** ** Filtering events *)

Import Events.

Section FilterEvents.

Lemma filter_twice {A : Type} (p q : A -> bool) (l : list A) :
  filter q (filter p l) = filter (fun x => p x && q x)%bool l.
Proof.
  induction l as [| x l IH]; cbn; [reflexivity |].
  destruct (p x); cbn; [destruct (q x); cbn; rewrite IH; reflexivity | exact IH].
Qed.

Lemma forallb_ext_on {A : Type} (p q : A -> bool) (l : list A) :
  (forall x, In x l -> p x = q x) -> forallb p l = forallb q l.
Proof.
  induction l as [| x l IH]; cbn; intros H; [reflexivity |].
  rewrite (H x) by (now left). rewrite IH by (intros; apply H; now right).
  reflexivity.
Qed.

Lemma py_bind_ok {A B : Type} (a : A) (k : A -> py B) :
  (x <- Ok a ;; k x) = k a.
Proof. reflexivity. Qed.

Lemma py_bind_raise {A B : Type} (e : exn) (k : A -> py B) :
  (x <- Raise e ;; k x) = Raise e.
Proof. reflexivity. Qed.

Lemma loc_eq_ok (e : DataFrame) (col : string) (val : cell) :
  has_column e col = true ->
  loc_eq e col val =
    Ok {| columns := columns e;
          rows := filter (fun r => cell_eqb (at_column (cells r) col) val) (rows e) |}.
Proof. intros H. unfold loc_eq. rewrite H. reflexivity. Qed.

Lemma loc_eq_raises (e : DataFrame) (col : string) (val : cell) :
  has_column e col = false -> loc_eq e col val = Raise (KeyError col).
Proof. intros H. unfold loc_eq. rewrite H. reflexivity. Qed.

Lemma set_index_ok (e : DataFrame) (col : string) :
  has_column e col = true ->
  set_index e col =
    Ok {| columns := filter (fun c => negb (String.eqb c col)) (columns e);
          rows := map (reindex col) (rows e) |}.
Proof. intros H. unfold set_index. rewrite H. reflexivity. Qed.

Lemma apply_filters_ok (f : DataFrame) (items : list (string * cell)) :
  (forall kv, In kv items -> has_column f (fst kv) = true) ->
  apply_filters f items =
    Ok {| columns := columns f; rows := filter (passes items) (rows f) |}.
Proof.
  revert f. induction items as [| [col val] rest IH]; intros f Hcols.
  - destruct f as [cs rs]. cbn [apply_filters columns rows].
    unfold passes. cbn [forallb]. rewrite filter_true. reflexivity.
  - cbn [apply_filters].
    rewrite loc_eq_ok by (apply (Hcols (col, val)); now left).
    rewrite py_bind_ok.
    rewrite IH by (intros kv Hin; apply Hcols; right; exact Hin).
    cbn [columns rows]. rewrite filter_twice. reflexivity.
Qed.


Lemma apply_filters_app (f : DataFrame) (a b : list (string * cell)) :
  apply_filters f (a ++ b) = (f' <- apply_filters f a ;; apply_filters f' b).
Proof.
  revert f. induction a as [| [col val] a IH]; intros f; [reflexivity |].
  cbn. destruct (loc_eq f col val) as [e | f']; [reflexivity | apply IH].
Qed.

Lemma at_column_other (cs : list (string * cell)) (col idx : string) :
  col <> idx ->
  at_column (filter (fun kv => negb (String.eqb (fst kv) idx)) cs) col =
  at_column cs col.
Proof.
  intros Hne. induction cs as [| [k v] cs IH]; cbn; [reflexivity |].
  destruct (String.eqb_spec k idx) as [-> | Hk]; cbn.
  - destruct (String.eqb_spec idx col) as [E | _]; [congruence | exact IH].
  - rewrite IH. reflexivity.
Qed.

Lemma has_column_after_set_index (cs : list string) (col idx : string) :
  existsb (String.eqb col) (filter (fun c => negb (String.eqb c idx)) cs) =
  (existsb (String.eqb col) cs && negb (String.eqb col idx))%bool.
Proof.
  induction cs as [| c cs IH]; cbn; [reflexivity |].
  destruct (String.eqb_spec c idx) as [-> | Hc]; cbn.
  - rewrite IH. destruct (String.eqb_spec col idx); cbn.
    + rewrite !Bool.andb_false_r. reflexivity.
    + reflexivity.
  - rewrite IH. destruct (String.eqb_spec col c) as [-> | Hcc]; cbn.
    + destruct (String.eqb_spec c idx); [contradiction | reflexivity].
    + reflexivity.
Qed.

Lemma forallb_perm {A : Type} (p : A -> bool) (l l' : list A) :
  Permutation l l' -> forallb p l = forallb p l'.
Proof.
  induction 1; cbn.
  - reflexivity.
  - rewrite IHPermutation. reflexivity.
  - destruct (p x), (p y); reflexivity.
  - congruence.
Qed.

(** What [filter_events] computes when every column it touches exists. *)
Lemma filter_events_eq (e : DataFrame) (event_type : string)
    (items : list (string * cell)) :
  has_column e "type_name" = true ->
  has_column e "id" = true ->
  (forall kv, In kv items -> has_column e (fst kv) = true /\ fst kv <> "id"%string) ->
  filter_events e event_type (Some items) =
    Ok {| columns := filter (fun c => negb (String.eqb c "id")) (columns e);
          rows := map (reindex "id")
                    (filter (fun r =>
                               cell_eqb (at_column (cells r) "type_name")
                                        (Str event_type)
                               && passes items r)%bool
                            (rows e)) |}.
Proof.
  intros Htype Hid Hitems. unfold filter_events.
  replace (match items with kv :: rest => kv :: rest | [] => [] end) with items
    by (destruct items; reflexivity).
  rewrite (loc_eq_ok _ _ _ Htype), py_bind_ok.
  rewrite set_index_ok by exact Hid. rewrite py_bind_ok.
  rewrite apply_filters_ok.
  - cbn [columns rows]. f_equal. f_equal. rewrite filter_map_swap, filter_twice.
    apply f_equal. apply filter_ext_in. intros r _. f_equal.
    unfold passes. apply forallb_ext_on.
    intros kv Hin. unfold reindex. cbn [cells].
    rewrite at_column_other; [reflexivity |].
    apply (Hitems kv Hin).
  - intros kv Hin. unfold has_column. cbn [columns].
    rewrite has_column_after_set_index.
    destruct (Hitems kv Hin) as [Hc Hne]. unfold has_column in Hc. rewrite Hc.
    destruct (String.eqb_spec (fst kv) "id"); [contradiction | reflexivity].
Qed.

End FilterEvents.

(** When the table has the columns "type_name" and "id" and every column
    named in the filter (none of them "id"), [filter_events] returns
    exactly the events of the asked type that have the asked value under
    every filtered column: in their original order, labelled by their id,
    with "id" no longer a column, and never more rows than it was
    given. *)
Theorem filter_events_selects (e : DataFrame) (event_type : string)
    (items : list (string * cell)) :
  has_column e "type_name" = true ->
  has_column e "id" = true ->
  (forall kv, In kv items -> has_column e (fst kv) = true /\ fst kv <> "id"%string) ->
  exists out,
    filter_events e event_type (Some items) = Ok out /\
    columns out = filter (fun c => negb (String.eqb c "id")) (columns e) /\
    rows out =
      map (reindex "id")
          (filter (fun r => cell_eqb (at_column (cells r) "type_name")
                                     (Str event_type)
                            && passes items r)%bool
                  (rows e)) /\
    (length (rows out) <= length (rows e))%nat.
Proof.
  intros Htype Hid Hitems. eexists.
  split; [apply (filter_events_eq e event_type items Htype Hid Hitems) |].
  cbn [columns rows]. split; [reflexivity |]. split; [reflexivity |].
  rewrite length_map. apply filter_length_le.
Qed.

(** A filter on a column the table does not have raises [KeyError] for
    that column, and so does a filter on "id", which has become the index
    by then; this is so even when no event is left to filter. *)
Theorem filter_events_unknown_column (e : DataFrame) (event_type : string)
    (before after : list (string * cell)) (col : string) (val : cell) :
  has_column e "type_name" = true ->
  has_column e "id" = true ->
  (forall kv, In kv before -> has_column e (fst kv) = true /\ fst kv <> "id"%string) ->
  has_column e col = false \/ col = "id"%string ->
  filter_events e event_type (Some (before ++ (col, val) :: after)) =
    Raise (KeyError col).
Proof.
  intros Htype Hid Hbefore Hcol. unfold filter_events.
  replace (match before ++ (col, val) :: after with
           | kv :: rest => kv :: rest | [] => [] end)
    with (before ++ (col, val) :: after)
    by (destruct (before ++ (col, val) :: after); reflexivity).
  rewrite (loc_eq_ok _ _ _ Htype), py_bind_ok.
  rewrite set_index_ok by exact Hid. rewrite py_bind_ok.
  rewrite apply_filters_app, apply_filters_ok.
  - rewrite py_bind_ok. cbn [apply_filters].
    rewrite loc_eq_raises; [reflexivity |].
    unfold has_column. cbn [columns]. rewrite has_column_after_set_index.
    destruct Hcol as [Hno | ->].
    + unfold has_column in Hno. rewrite Hno. reflexivity.
    + rewrite String.eqb_refl. apply Bool.andb_false_r.
  - intros kv Hin. unfold has_column. cbn [columns].
    rewrite has_column_after_set_index.
    destruct (Hbefore kv Hin) as [Hc Hne]. unfold has_column in Hc. rewrite Hc.
    destruct (String.eqb_spec (fst kv) "id"); [contradiction | reflexivity].
Qed.

(** The order of the filter's items does not matter: listing the same
    items in another order selects the same events. *)
Theorem filter_events_item_order (e : DataFrame) (event_type : string)
    (items items' : list (string * cell)) :
  has_column e "type_name" = true ->
  has_column e "id" = true ->
  (forall kv, In kv items -> has_column e (fst kv) = true /\ fst kv <> "id"%string) ->
  Permutation items items' ->
  filter_events e event_type (Some items') =
  filter_events e event_type (Some items).
Proof.
  intros Htype Hid Hitems Hperm.
  rewrite (filter_events_eq e event_type items Htype Hid Hitems).
  rewrite (filter_events_eq e event_type items' Htype Hid).
  - f_equal. f_equal. f_equal. apply filter_ext. intros r. f_equal.
    unfold passes. symmetry. apply forallb_perm. exact Hperm.
  - intros kv Hin. apply Hitems.
    apply (Permutation_in kv (Permutation_sym Hperm) Hin).
Qed.

Lemma three_events_open_play_columns :
  forall kv, In kv [("shot_type_name"%string, Str "Open Play")] ->
    has_column MoreSamples.three_events (fst kv) = true /\ fst kv <> "id"%string.
Proof.
  intros kv [<- | []]. split; [reflexivity | discriminate].
Qed.

Lemma filter_events_selects_witness :
  exists out,
    filter_events MoreSamples.three_events "Shot"
      (Some [("shot_type_name"%string, Str "Open Play")]) = Ok out /\
    columns out =
      filter (fun c => negb (String.eqb c "id"))
             (columns MoreSamples.three_events) /\
    rows out =
      map (reindex "id")
          (filter (fun r => cell_eqb (at_column (cells r) "type_name") (Str "Shot")
                            && passes [("shot_type_name"%string, Str "Open Play")] r)%bool
                  (rows MoreSamples.three_events)) /\
    (length (rows out) <= length (rows MoreSamples.three_events))%nat.
Proof.
  apply (filter_events_selects MoreSamples.three_events "Shot"
           [("shot_type_name"%string, Str "Open Play")]
           eq_refl eq_refl three_events_open_play_columns).
Defined.

Example filter_events_three_events :
  filter_events MoreSamples.three_events "Shot"
    (Some [("shot_type_name"%string, Str "Open Play")])
  = Ok {| columns := ["type_name"; "shot_type_name"; "player_name"]%string;
          rows := [ {| label := Str "a1";
                       cells := [("type_name"%string, Str "Shot");
                                 ("shot_type_name"%string, Str "Open Play");
                                 ("player_name"%string, Str "Lionel Messi")] |} ] |}.
Proof. reflexivity. Qed.

Lemma filter_events_unknown_column_witness :
  filter_events MoreSamples.three_events "Shot"
    (Some ([("shot_type_name"%string, Str "Open Play")]
           ++ ("id"%string, Str "a1") :: []))
  = Raise (KeyError "id").
Proof.
  apply (filter_events_unknown_column MoreSamples.three_events "Shot"
           [("shot_type_name"%string, Str "Open Play")] [] "id" (Str "a1")
           eq_refl eq_refl three_events_open_play_columns).
  right. reflexivity.
Defined.

Lemma three_events_two_filters_columns :
  forall kv,
    In kv [("shot_type_name"%string, Str "Open Play");
           ("player_name"%string, Str "Lionel Messi")] ->
    has_column MoreSamples.three_events (fst kv) = true /\ fst kv <> "id"%string.
Proof.
  intros kv [<- | [<- | []]]; (split; [reflexivity | discriminate]).
Qed.

Lemma filter_events_item_order_witness :
  filter_events MoreSamples.three_events "Shot"
    (Some [("player_name"%string, Str "Lionel Messi");
           ("shot_type_name"%string, Str "Open Play")]) =
  filter_events MoreSamples.three_events "Shot"
    (Some [("shot_type_name"%string, Str "Open Play");
           ("player_name"%string, Str "Lionel Messi")]).
Proof.
  apply (filter_events_item_order MoreSamples.three_events "Shot" _ _
           eq_refl eq_refl three_events_two_filters_columns).
  apply perm_swap.
Defined.

(** ** The match ids of a competition *)

Import Competition.

Section MatchIdsFacts.

Context {V : Type}.

Lemma dict_get_error (d : list (string * V)) (key : string) (e : exn) :
  dict_get d key = Raise e -> e = KeyError key.
Proof.
  induction d as [| [k v] rest IH]; cbn.
  - intros H. injection H as <-. reflexivity.
  - destruct (String.eqb k key); [discriminate | exact IH].
Qed.

Lemma append_season_ok (matches : list (list (string * V))) (ids acc : list V) :
  Forall2 (fun m id => dict_get m "match_id" = Ok id) matches ids ->
  append_season V matches acc = Ok (acc ++ ids).
Proof.
  intros H. revert acc. induction H as [| m id matches ids Hm _ IH]; intros acc.
  - cbn. rewrite app_nil_r. reflexivity.
  - cbn [append_season]. rewrite Hm, py_bind_ok, IH, <- app_assoc. reflexivity.
Qed.

Lemma append_season_raises (matches : list (list (string * V))) (acc : list V) :
  Exists (fun m => forall id, dict_get m "match_id" <> Ok id) matches ->
  append_season V matches acc = Raise (KeyError "match_id").
Proof.
  intros H. revert acc. induction matches as [| m rest IH]; intros acc.
  - inversion H.
  - cbn [append_season].
    destruct (dict_get m "match_id") as [e | id] eqn:E.
    + apply dict_get_error in E. subst e. reflexivity.
    + rewrite py_bind_ok. apply IH.
      inversion H as [? ? Hm | ? ? Hrest]; subst; [| exact Hrest].
      exfalso. exact (Hm id E).
Qed.

Lemma append_season_cases (matches : list (list (string * V))) (acc : list V) :
  (exists ids, Forall2 (fun m id => dict_get m "match_id" = Ok id) matches ids) \/
  Exists (fun m => forall id, dict_get m "match_id" <> Ok id) matches.
Proof.
  induction matches as [| m rest IH].
  - left. exists []. constructor.
  - destruct (dict_get m "match_id") as [e | id] eqn:E.
    + right. constructor. intros id H. rewrite E in H. discriminate H.
    + destruct IH as [[ids Hids] | Hex].
      * left. exists (id :: ids). constructor; assumption.
      * right. apply Exists_cons_tl. exact Hex.
Qed.

Lemma append_seasons_ok (seasons : list (string * list (list (string * V))))
    (ids acc : list V) :
  Forall2 (fun m id => dict_get m "match_id" = Ok id)
          (concat (map snd seasons)) ids ->
  append_seasons V seasons acc = Ok (acc ++ ids).
Proof.
  revert ids acc. induction seasons as [| [fn matches] rest IH]; intros ids acc H.
  - cbn in H. inversion H. cbn. rewrite app_nil_r. reflexivity.
  - cbn [map snd concat] in H. apply Forall2_app_inv_l in H.
    destruct H as (ids1 & ids2 & H1 & H2 & ->).
    cbn [append_seasons].
    rewrite (append_season_ok _ _ _ H1), py_bind_ok, (IH _ _ H2), <- app_assoc.
    reflexivity.
Qed.

Lemma append_seasons_raises (seasons : list (string * list (list (string * V))))
    (acc : list V) :
  Exists (fun m => forall id, dict_get m "match_id" <> Ok id)
         (concat (map snd seasons)) ->
  append_seasons V seasons acc = Raise (KeyError "match_id").
Proof.
  revert acc. induction seasons as [| [fn matches] rest IH]; intros acc H.
  - cbn in H. inversion H.
  - cbn [map snd concat] in H. cbn [append_seasons].
    destruct (append_season_cases matches acc) as [[ids Hids] | Hex].
    + rewrite (append_season_ok _ _ _ Hids), py_bind_ok. apply IH.
      apply Exists_app in H. destruct H as [H | H]; [| exact H].
      exfalso. clear - H Hids. induction Hids as [| m id ms ids Hm _ IHf].
      * inversion H.
      * inversion H as [? ? Hbad | ? ? Hrest]; subst;
          [exact (Hbad id Hm) | exact (IHf Hrest)].
    + rewrite (append_season_raises _ _ Hex). reflexivity.
Qed.

End MatchIdsFacts.

(** When the competition's directory exists and every match record of
    every season file has a "match_id", [get_competition_match_ids]
    returns those ids, one per match record, season file after season file
    in listing order and in file order within a season. *)
Theorem get_competition_match_ids_all {V : Type} (fs : data_store V)
    (comp_id : Z) (data_dir : string)
    (seasons : list (string * list (list (string * V)))) (ids : list V) :
  fs data_dir comp_id = Some seasons ->
  Forall2 (fun m id => dict_get m "match_id" = Ok id)
          (concat (map snd seasons)) ids ->
  get_competition_match_ids V fs comp_id data_dir = Ok ids /\
  length ids = length (concat (map snd seasons)).
Proof.
  intros Hfs Hids. unfold get_competition_match_ids. rewrite Hfs.
  split; [apply (append_seasons_ok seasons ids [] Hids) |].
  symmetry. apply (Forall2_length Hids).
Qed.

Lemma la_liga_ids :
  Forall2 (fun m id => dict_get m "match_id" = Ok id)
    (concat (map snd
       [ ("1.json"%string,
          [ [("match_id"%string, 9609%Z); ("home_score"%string, 2%Z)];
            [("match_id"%string, 9610%Z)] ]);
         ("27.json"%string,
          [ [("home_score"%string, 0%Z); ("match_id"%string, 266166%Z)] ]) ]))
    [9609%Z; 9610%Z; 266166%Z].
Proof. repeat constructor. Qed.

Lemma get_competition_match_ids_all_witness :
  get_competition_match_ids Z MoreSamples.la_liga 11 "../data/statsbomb/data/"
    = Ok [9609%Z; 9610%Z; 266166%Z] /\
  length [9609%Z; 9610%Z; 266166%Z] =
  length (concat (map snd
       [ ("1.json"%string,
          [ [("match_id"%string, 9609%Z); ("home_score"%string, 2%Z)];
            [("match_id"%string, 9610%Z)] ]);
         ("27.json"%string,
          [ [("home_score"%string, 0%Z); ("match_id"%string, 266166%Z)] ]) ])).
Proof.
  apply (get_competition_match_ids_all MoreSamples.la_liga 11
           "../data/statsbomb/data/" _ _ eq_refl la_liga_ids).
Defined.

(** [get_competition_match_ids] gives all the ids or none: one match
    record without a "match_id", in any season file, makes the whole call
    raise [KeyError], and a missing competition directory makes it raise
    [FileNotFoundError]. *)
Theorem get_competition_match_ids_all_or_nothing {V : Type} (fs : data_store V)
    (comp_id : Z) (data_dir : string) :
  match fs data_dir comp_id with
  | None =>
      get_competition_match_ids V fs comp_id data_dir =
        Raise (FileNotFoundError (data_dir, "matches"%string))
  | Some seasons =>
      Exists (fun m => forall id, dict_get m "match_id" <> Ok id)
             (concat (map snd seasons)) ->
      get_competition_match_ids V fs comp_id data_dir = Raise (KeyError "match_id")
  end.
Proof.
  unfold get_competition_match_ids.
  destruct (fs data_dir comp_id) as [seasons |]; [| reflexivity].
  intros H. apply append_seasons_raises. exact H.
Qed.

(** ** Looking a match up *)

Import WorldCup.


Section FindMatch.

Lemma find_required_match_id_snoc (matches : list WCMatch) (m : WCMatch)
    (home away : string) :
  find_required_match_id (matches ++ [m]) home away =
    if (String.eqb (home_team_name m) home
        && String.eqb (away_team_name m) away)%bool
    then MatchId (match_id m)
    else find_required_match_id matches home away.
Proof. unfold find_required_match_id. rewrite fold_left_app. reflexivity. Qed.

Lemma names_eqb (m : WCMatch) (home away : string) :
  (String.eqb (home_team_name m) home
   && String.eqb (away_team_name m) away)%bool = true <->
  home_team_name m = home /\ away_team_name m = away.
Proof.
  rewrite Bool.andb_true_iff, !String.eqb_eq. reflexivity.
Qed.

End FindMatch.

(** The search for the match of two teams keeps the last hit: the result
    is the text "Not found" exactly when no match has that home team and
    that away team, and otherwise it is the id of the last such match in
    the list. *)
Theorem find_required_match_id_last (matches : list WCMatch)
    (required_home_team required_away_team : string) :
  match find_required_match_id matches required_home_team required_away_team with
  | NotFound =>
      forall m, In m matches ->
        ~ (home_team_name m = required_home_team /\
           away_team_name m = required_away_team)
  | MatchId id =>
      exists before m after,
        matches = before ++ m :: after /\
        home_team_name m = required_home_team /\
        away_team_name m = required_away_team /\
        match_id m = id /\
        forall m', In m' after ->
          ~ (home_team_name m' = required_home_team /\
             away_team_name m' = required_away_team)
  end.
Proof.
  induction matches as [| x l IH] using rev_ind.
  - cbn. intros m [].
  - rewrite find_required_match_id_snoc.
    destruct (String.eqb (home_team_name x) required_home_team
              && String.eqb (away_team_name x) required_away_team)%bool eqn:E.
    + apply names_eqb in E. destruct E as [Eh Ea].
      exists l, x, []. repeat split; try assumption. intros m' [].
    + assert (Hx : ~ (home_team_name x = required_home_team /\
                      away_team_name x = required_away_team)).
      { intros H. apply names_eqb in H. rewrite H in E. discriminate E. }
      destruct (find_required_match_id l required_home_team required_away_team)
        as [| id].
      * intros m Hin. apply in_app_or in Hin. destruct Hin as [Hin | [<- | []]];
          [apply IH; exact Hin | exact Hx].
      * destruct IH as (before & m & after & -> & Hh & Ha & Hid & Hafter).
        exists before, m, (after ++ [x]).
        split; [rewrite <- app_assoc; reflexivity |].
        repeat split; try assumption.
        intros m' Hin. apply in_app_or in Hin.
        destruct Hin as [Hin | [<- | []]]; [apply Hafter; exact Hin | exact Hx].
Qed.

(** ** Shots and goals per match *)

Import ShotCounts.

Section ShotCountsFacts.

Lemma is_shot_id_present_range (tags : list Tag) (g : Z) :
  is_shot_id_present tags = Ok g -> g = 0%Z \/ g = 1%Z.
Proof.
  induction tags as [| tag rest IH]; cbn [is_shot_id_present].
  - intros H. injection H as <-. now left.
  - destruct (dict_get tag "id") as [e | id]; [discriminate |].
    rewrite py_bind_ok. destruct (id =? 101)%Z; [| exact IH].
    intros H. injection H as <-. now right.
Qed.

Lemma goal_column_Forall2 (shots : list ShotEvent) (goal : list Z) :
  goal_column shots = Ok goal ->
  Forall2 (fun shot g => is_shot_id_present (tags shot) = Ok g) shots goal.
Proof.
  revert goal. induction shots as [| shot rest IH]; intros goal; cbn [goal_column].
  - intros H. injection H as <-. constructor.
  - destruct (is_shot_id_present (tags shot)) as [e | g] eqn:Eg; [discriminate |].
    rewrite py_bind_ok.
    destruct (goal_column rest) as [e | gs]; [discriminate |].
    rewrite py_bind_ok. intros H. injection H as <-.
    constructor; [exact Eg | apply IH; reflexivity].
Qed.

Lemma insert_key_In (k x : Z) (keys : list Z) :
  In x (insert_key k keys) <-> x = k \/ In x keys.
Proof.
  induction keys as [| k' rest IH]; cbn.
  - intuition.
  - destruct (Z.ltb_spec k k'); [cbn; intuition |].
    destruct (Z.eqb_spec k k'); [subst; cbn; intuition |].
    cbn. rewrite IH. intuition.
Qed.

Lemma insert_key_sorted (k : Z) (keys : list Z) :
  StronglySorted Z.lt keys -> StronglySorted Z.lt (insert_key k keys).
Proof.
  induction 1 as [| k' rest Hs IH Hall]; cbn.
  - repeat constructor.
  - destruct (Z.ltb_spec k k') as [Hlt | Hge].
    + constructor; [constructor; assumption |].
      constructor; [exact Hlt |].
      eapply Forall_impl; [| exact Hall]. cbn. intros; lia.
    + destruct (Z.eqb_spec k k') as [-> | Hne]; [constructor; assumption |].
      constructor; [exact IH |].
      apply Forall_forall. intros x Hx. apply insert_key_In in Hx.
      destruct Hx as [-> | Hx]; [lia |].
      rewrite Forall_forall in Hall. apply Hall. exact Hx.
Qed.

Lemma group_keys_In (ids : list Z) (x : Z) : In x (group_keys ids) <-> In x ids.
Proof.
  induction ids as [| k rest IH]; cbn; [reflexivity |].
  rewrite insert_key_In, IH. intuition.
Qed.

Lemma group_keys_sorted (ids : list Z) : StronglySorted Z.lt (group_keys ids).
Proof.
  induction ids as [| k rest IH]; cbn; [constructor |].
  apply insert_key_sorted. exact IH.
Qed.

Lemma sorted_NoDup (keys : list Z) : StronglySorted Z.lt keys -> NoDup keys.
Proof.
  induction 1 as [| k rest Hs IH Hall]; constructor; [| exact IH].
  intros Hin. rewrite Forall_forall in Hall. specialize (Hall k Hin). lia.
Qed.

Lemma Zsum_cons (z : Z) (l : list Z) : Zsum (z :: l) = (z + Zsum l)%Z.
Proof. reflexivity. Qed.

Lemma Zsum_pointwise {A : Type} (f g : A -> Z) (l : list A) :
  Zsum (map (fun x => f x + g x)%Z l) = (Zsum (map f l) + Zsum (map g l))%Z.
Proof.
  induction l as [| x l IH]; cbn [map]; [reflexivity |].
  rewrite !Zsum_cons, IH. lia.
Qed.

(** Exactly one key of a duplicate-free list takes a given row. *)
Lemma Zsum_single_key (a c : Z) (keys : list Z) :
  NoDup keys -> In a keys ->
  Zsum (map (fun k => if (a =? k)%Z then c else 0%Z) keys) = c.
Proof.
  induction 1 as [| k rest Hnot Hnd IH]; [intros [] |].
  intros Hin. cbn [map]. rewrite Zsum_cons.
  destruct (Z.eqb_spec a k) as [-> | Hne].
  - assert (Hz : Zsum (map (fun k0 => if (k =? k0)%Z then c else 0%Z) rest) = 0%Z).
    { clear IH Hin Hnd. induction rest as [| k' rest IH]; [reflexivity |].
      cbn [map]. rewrite Zsum_cons.
      destruct (Z.eqb_spec k k') as [-> | _]; [exfalso; apply Hnot; now left |].
      rewrite IH; [reflexivity |]. intros H. apply Hnot. now right. }
    rewrite Hz. lia.
  - destruct Hin as [-> | Hin]; [contradiction |]. rewrite (IH Hin). lia.
Qed.

(** Summing group by group is summing the whole table. *)
Lemma Zsum_by_key (w : Z * Z -> Z) (keys : list Z) (table : list (Z * Z)) :
  NoDup keys -> (forall r, In r table -> In (fst r) keys) ->
  Zsum (map (fun k => Zsum (map w (filter (fun r => (fst r =? k)%Z) table))) keys)
  = Zsum (map w table).
Proof.
  intros Hnd. induction table as [| r table IH]; intros Hcover.
  - cbn. clear. induction keys as [| k keys IH]; [reflexivity |].
    cbn [map]. rewrite Zsum_cons, IH. reflexivity.
  - cbn [map]. rewrite Zsum_cons.
    rewrite <- IH by (intros r' Hr'; apply Hcover; now right).
    rewrite <- (Zsum_single_key (fst r) (w r) keys Hnd)
      by (apply Hcover; now left).
    rewrite <- Zsum_pointwise. f_equal. apply map_ext. intros k. cbn [filter].
    destruct (fst r =? k)%Z; reflexivity.
Qed.

Lemma Zsum_ones {A : Type} (l : list A) :
  Zsum (map (fun _ => 1%Z) l) = Z.of_nat (length l).
Proof.
  induction l as [| x l IH]; [reflexivity |].
  cbn [map length]. rewrite Zsum_cons, IH. lia.
Qed.

Lemma Zsum_bits (l : list Z) :
  Forall (fun g => g = 0%Z \/ g = 1%Z) l -> (0 <= Zsum l <= Z.of_nat (length l))%Z.
Proof.
  induction 1 as [| g l Hg _ IH]; [cbn; lia |].
  cbn [length]. rewrite Zsum_cons. lia.
Qed.

Lemma per_match_eq (shots : list ShotEvent) (goal : list Z) :
  goal_column shots = Ok goal ->
  per_match shots =
    Ok (map (fun g => Z.of_nat (length (snd g)))
            (groupby (combine (map matchId shots) goal)),
        map (fun g => Zsum (map snd (snd g)))
            (groupby (combine (map matchId shots) goal))).
Proof. intros H. unfold per_match. rewrite H. reflexivity. Qed.

Lemma per_match_goal (shots : list ShotEvent) (out : list Z * list Z) :
  per_match shots = Ok out -> exists goal, goal_column shots = Ok goal.
Proof.
  unfold per_match. destruct (goal_column shots) as [e | goal]; [discriminate |].
  eauto.
Qed.

End ShotCountsFacts.

(** When every tag has an "id", [is_shot_id_present] says whether one of
    them is the goal tag: it returns 1 if some tag has id 101 and 0 if
    none has. *)
Theorem is_shot_id_present_goal (tags : list Tag) :
  (forall tag, In tag tags -> exists id, dict_get tag "id" = Ok id) ->
  (is_shot_id_present tags = Ok 1%Z /\
   exists tag, In tag tags /\ dict_get tag "id" = Ok 101%Z) \/
  (is_shot_id_present tags = Ok 0%Z /\
   forall tag, In tag tags -> dict_get tag "id" <> Ok 101%Z).
Proof.
  induction tags as [| tag rest IH]; intros Hids.
  - right. split; [reflexivity | intros tag []].
  - cbn [is_shot_id_present].
    destruct (Hids tag (or_introl eq_refl)) as [id Hid]. rewrite Hid, py_bind_ok.
    destruct (Z.eqb_spec id 101) as [-> | Hne].
    + left. split; [reflexivity |]. exists tag. split; [now left | exact Hid].
    + destruct IH as [[Hr (t & Ht & Ht101)] | [Hr Hnone]].
      * intros t Ht. apply Hids. now right.
      * left. split; [exact Hr |]. exists t. split; [now right | exact Ht101].
      * right. split; [exact Hr |]. intros t [<- | Ht] H101.
        -- rewrite Hid in H101. injection H101 as ->. contradiction.
        -- exact (Hnone t Ht H101).
Qed.

Lemma is_shot_id_present_goal_witness :
  (is_shot_id_present [[("id"%string, 402%Z)]; [("id"%string, 101%Z)]] = Ok 1%Z /\
   exists tag, In tag [[("id"%string, 402%Z)]; [("id"%string, 101%Z)]] /\
               dict_get tag "id" = Ok 101%Z) \/
  (is_shot_id_present [[("id"%string, 402%Z)]; [("id"%string, 101%Z)]] = Ok 0%Z /\
   forall tag, In tag [[("id"%string, 402%Z)]; [("id"%string, 101%Z)]] ->
               dict_get tag "id" <> Ok 101%Z).
Proof.
  apply (is_shot_id_present_goal [[("id"%string, 402%Z)]; [("id"%string, 101%Z)]]).
  intros tag [<- | [<- | []]]; eexists; reflexivity.
Defined.

(** [is_shot_id_present] stops at the first tag that decides: after tags
    with ids other than 101, a tag with id 101 gives 1 and a tag without
    "id" raises [KeyError], whatever tags come later. *)
Theorem is_shot_id_present_first (before after : list Tag) (tag : Tag) :
  (forall t, In t before ->
     exists id, dict_get t "id" = Ok id /\ id <> 101%Z) ->
  (dict_get tag "id" = Ok 101%Z ->
   is_shot_id_present (before ++ tag :: after) = Ok 1%Z) /\
  ((forall id, dict_get tag "id" <> Ok id) ->
   is_shot_id_present (before ++ tag :: after) = Raise (KeyError "id")).
Proof.
  induction before as [| t before IH]; intros Hbefore.
  - cbn [app is_shot_id_present]. split.
    + intros ->. reflexivity.
    + intros Hno. destruct (dict_get tag "id") as [e | id] eqn:E.
      * apply dict_get_error in E. subst e. reflexivity.
      * exfalso. exact (Hno id eq_refl).
  - cbn [app is_shot_id_present].
    destruct (Hbefore t (or_introl eq_refl)) as (id & -> & Hne).
    rewrite py_bind_ok. destruct (Z.eqb_spec id 101) as [E | _]; [contradiction |].
    apply IH. intros t' Ht'. apply Hbefore. now right.
Qed.

Lemma is_shot_id_present_first_witness :
  (dict_get [("id"%string, 101%Z)] "id" = Ok 101%Z ->
   is_shot_id_present
     ([[("id"%string, 402%Z)]] ++ [("id"%string, 101%Z)] :: [[("name"%string, 7%Z)]])
   = Ok 1%Z) /\
  ((forall id, dict_get [("id"%string, 101%Z)] "id" <> Ok id) ->
   is_shot_id_present
     ([[("id"%string, 402%Z)]] ++ [("id"%string, 101%Z)] :: [[("name"%string, 7%Z)]])
   = Raise (KeyError "id")).
Proof.
  apply (is_shot_id_present_first [[("id"%string, 402%Z)]]
           [[("name"%string, 7%Z)]] [("id"%string, 101%Z)]).
  intros t [<- | []]. exists 402%Z. split; [reflexivity | discriminate].
Defined.

Section PerMatch.

Lemma map_snd_combine {A B : Type} (a : list A) (b : list B) :
  length a = length b -> map snd (combine a b) = b.
Proof.
  revert b. induction a as [| x a IH]; intros [| y b] H; try discriminate H.
  - reflexivity.
  - cbn. rewrite IH by (cbn in H; lia). reflexivity.
Qed.

Lemma map_fst_combine {A B : Type} (a : list A) (b : list B) :
  length a = length b -> map fst (combine a b) = a.
Proof.
  revert b. induction a as [| x a IH]; intros [| y b] H; try discriminate H.
  - reflexivity.
  - cbn. rewrite IH by (cbn in H; lia). reflexivity.
Qed.

Lemma Forall2_map_same {A B C : Type} (P : B -> C -> Prop)
    (f : A -> B) (g : A -> C) (l : list A) :
  (forall x, In x l -> P (f x) (g x)) -> Forall2 P (map f l) (map g l).
Proof.
  induction l as [| x l IH]; intros H; cbn; constructor.
  - apply H. now left.
  - apply IH. intros y Hy. apply H. now right.
Qed.

Lemma goal_column_bits (shots : list ShotEvent) (goal : list Z) :
  goal_column shots = Ok goal ->
  length goal = length shots /\ Forall (fun g => g = 0%Z \/ g = 1%Z) goal.
Proof.
  intros H. apply goal_column_Forall2 in H. split.
  - symmetry. apply (Forall2_length H).
  - induction H as [| shot g shots goal Hg _ IH]; constructor; [| exact IH].
    apply (is_shot_id_present_range _ _ Hg).
Qed.

End PerMatch.

(** Grouping loses nothing: when the per-match lists are built, the
    entries of [shots_per_match] add up to the number of shots and the
    entries of [goals_per_match] add up to the number of goals in the
    [goal] column. *)
Theorem per_match_totals (shots : list ShotEvent)
    (shots_per_match goals_per_match : list Z) :
  per_match shots = Ok (shots_per_match, goals_per_match) ->
  Zsum shots_per_match = Z.of_nat (length shots) /\
  exists goal,
    goal_column shots = Ok goal /\ Zsum goals_per_match = Zsum goal.
Proof.
  intros H. destruct (per_match_goal _ _ H) as [goal Hgoal].
  rewrite (per_match_eq _ _ Hgoal) in H. injection H as <- <-.
  destruct (goal_column_bits _ _ Hgoal) as [Hlen _].
  set (table := combine (map matchId shots) goal).
  assert (Hl : length (map matchId shots) = length goal)
    by (rewrite length_map; lia).
  assert (Hnd : NoDup (group_keys (map fst table)))
    by apply sorted_NoDup, group_keys_sorted.
  assert (Hcover : forall r, In r table -> In (fst r) (group_keys (map fst table)))
    by (intros r Hr; apply group_keys_In, in_map; exact Hr).
  unfold groupby. rewrite !map_map. cbn [snd]. split.
  - rewrite <- (map_ext (fun k => Zsum (map (fun _ => 1%Z)
                  (filter (fun r => (fst r =? k)%Z) table))))
      by (intros k; apply Zsum_ones).
    rewrite (Zsum_by_key (fun _ => 1%Z) _ table Hnd Hcover), Zsum_ones.
    unfold table. rewrite length_combine, length_map. lia.
  - exists goal. split; [exact Hgoal |].
    rewrite (Zsum_by_key snd _ table Hnd Hcover).
    unfold table. rewrite map_snd_combine by exact Hl. reflexivity.
Qed.

Lemma four_shots_per_match :
  per_match MoreSamples.four_shots = Ok ([1%Z; 3%Z], [1%Z; 1%Z]).
Proof. reflexivity. Qed.

Lemma per_match_totals_witness :
  Zsum [1%Z; 3%Z] = Z.of_nat (length MoreSamples.four_shots) /\
  exists goal,
    goal_column MoreSamples.four_shots = Ok goal /\ Zsum [1%Z; 1%Z] = Zsum goal.
Proof.
  apply (per_match_totals MoreSamples.four_shots [1%Z; 3%Z] [1%Z; 1%Z]
           four_shots_per_match).
Defined.

(** The two lists go match by match: they have one entry per match that
    has a shot, every such match counts at least one shot, and its goals
    are between 0 and its shots.  A match without shots has no entry. *)
Theorem per_match_entries (shots : list ShotEvent)
    (shots_per_match goals_per_match : list Z) :
  per_match shots = Ok (shots_per_match, goals_per_match) ->
  Forall2 (fun s g => 1 <= s /\ 0 <= g <= s)%Z shots_per_match goals_per_match /\
  length shots_per_match = length (group_keys (map matchId shots)).
Proof.
  intros H. destruct (per_match_goal _ _ H) as [goal Hgoal].
  rewrite (per_match_eq _ _ Hgoal) in H. injection H as <- <-.
  destruct (goal_column_bits _ _ Hgoal) as [Hlen Hbits].
  assert (Hl : length (map matchId shots) = length goal)
    by (rewrite length_map; lia).
  set (table := combine (map matchId shots) goal).
  assert (Hfst : map fst table = map matchId shots)
    by (apply map_fst_combine; exact Hl).
  split.
  - apply Forall2_map_same. intros [k group] Hg. cbn [snd].
    unfold groupby in Hg. apply in_map_iff in Hg.
    destruct Hg as (k' & Hk & Hin). injection Hk as -> <-.
    apply group_keys_In, in_map_iff in Hin. destruct Hin as (r & Hr & Hrin).
    assert (Hne : In r (filter (fun r0 => (fst r0 =? k)%Z) table)).
    { apply filter_In. split; [exact Hrin |]. apply Z.eqb_eq. exact Hr. }
    assert (Hpos : (1 <= Z.of_nat (length (filter (fun r0 => (fst r0 =? k)%Z) table)))%Z).
    { destruct (filter (fun r0 => (fst r0 =? k)%Z) table); [destruct Hne | cbn; lia]. }
    split; [exact Hpos |].
    rewrite <- (length_map snd (filter (fun r0 => (fst r0 =? k)%Z) table)).
    apply Zsum_bits. apply Forall_forall. intros g Hg.
    apply in_map_iff in Hg. destruct Hg as ([k0 g0] & <- & Hg). cbn [snd].
    apply filter_In in Hg. destruct Hg as [Hg _].
    unfold table in Hg. apply in_combine_r in Hg.
    rewrite Forall_forall in Hbits. apply Hbits. exact Hg.
  - unfold groupby. rewrite !length_map. fold table. rewrite Hfst. reflexivity.
Qed.

Lemma per_match_entries_witness :
  Forall2 (fun s g => 1 <= s /\ 0 <= g <= s)%Z [1%Z; 3%Z] [1%Z; 1%Z] /\
  length [1%Z; 3%Z] = length (group_keys (map matchId MoreSamples.four_shots)).
Proof.
  apply (per_match_entries MoreSamples.four_shots [1%Z; 3%Z] [1%Z; 1%Z]
           four_shots_per_match).
Defined.

Lemma get_competition_match_ids_all_or_nothing_witness :
  get_competition_match_ids Z
    (fun _ _ => Some [ ("1.json"%string,
                        [ [("match_id"%string, 9609%Z)];
                          [("home_score"%string, 2%Z)] ]) ])
    11 "../data/statsbomb/data/"
  = Raise (KeyError "match_id").
Proof.
  apply (get_competition_match_ids_all_or_nothing
           (fun _ _ => Some [ ("1.json"%string,
                               [ [("match_id"%string, 9609%Z)];
                                 [("home_score"%string, 2%Z)] ]) ])
           11 "../data/statsbomb/data/").
  apply Exists_cons_tl, Exists_cons_hd. intros id H. discriminate H.
Defined.

(** * Where the code raises: the binary64 divisor *)

Import Binary64.

Section Dyadic.

Lemma pow2_mod_5 (k : Z) : (0 <= k)%Z -> ((2 ^ k) mod 5 <> 0)%Z.
Proof.
  intros Hk. pattern k. apply natlike_ind; [discriminate | | exact Hk].
  intros n Hn IH. rewrite Z.pow_succ_r by exact Hn.
  set (a := (2 ^ n)%Z) in *. clearbody a.
  pose proof (Z.div_mod a 5 ltac:(lia)) as Ha.
  pose proof (Z.mod_pos_bound a 5 ltac:(lia)) as Hb.
  intros H. apply Z.mod_divide in H; [| lia]. destruct H as [c Hc]. lia.
Qed.

Lemma square_mod_5 (s : Z) : (s mod 5 <> 0)%Z -> ((s * s) mod 5 <> 0)%Z.
Proof.
  intros Hs. rewrite Z.mul_mod by lia.
  pose proof (Z.mod_pos_bound s 5 ltac:(lia)) as Hb.
  assert (Hr : (s mod 5 = 1 \/ s mod 5 = 2 \/ s mod 5 = 3 \/ s mod 5 = 4)%Z) by lia.
  destruct Hr as [-> | [-> | [-> | ->]]]; discriminate.
Qed.

Lemma abs_scaled_sq (z : R) : (Rabs z * 65 / 100) ^ 2 = (z * 65 / 100) ^ 2.
Proof.
  replace ((Rabs z * 65 / 100) ^ 2) with (Rabs z ^ 2 * (65 / 100) ^ 2) by field.
  rewrite pow2_abs. field.
Qed.

(** A binary64 value is an integer over a power of two. *)
Lemma F2R_dyadic (f : PrimFloat.float) :
  exists A k, (0 <= k)%Z /\ F2R f = IZR A / IZR (2 ^ k).
Proof.
  unfold F2R. destruct (FloatOps.Prim2SF f) as [s | s | | s m e].
  1-3: exists 0%Z, 0%Z; split; [lia | cbn; lra].
  eexists. exists (Z.max 0 (- e)). split; [lia | reflexivity].
Qed.

(** No binary64 shot lies on the circle where the exact divisor vanishes:
    clearing denominators would make a sum of two multiples of 25 equal
    to 366^2 times a power of 4. *)
Lemma exact_divisor_nonzero (x y : PrimFloat.float) :
  angle_divisor (fst (transform_coordinates_for_computation (F2R x) (F2R y)))
                (snd (transform_coordinates_for_computation (F2R x) (F2R y))) <> 0.
Proof.
  rewrite transform_fst, transform_snd. unfold angle_divisor.
  destruct (F2R_dyadic x) as (A & k & Hk & ->).
  destruct (F2R_dyadic y) as (B & j & Hj & ->).
  set (P := (2 ^ k)%Z). set (Q := (2 ^ j)%Z).
  assert (HP : (0 < P)%Z) by (apply Z.pow_pos_nonneg; lia).
  assert (HQ : (0 < Q)%Z) by (apply Z.pow_pos_nonneg; lia).
  assert (Hp : 0 < IZR P) by (apply IZR_lt; exact HP).
  assert (Hq : 0 < IZR Q) by (apply IZR_lt; exact HQ).
  assert (HPQ : (P * Q = 2 ^ (k + j))%Z)
    by (unfold P, Q; rewrite Z.pow_add_r by lia; reflexivity).
  clearbody P Q.
  intros H. rewrite abs_scaled_sq in H.
  replace (7.32 / 2) with (366 / 100) in H by lra.
  assert (T : (105 * (100 * IZR P - IZR A) * IZR Q) * (105 * (100 * IZR P - IZR A) * IZR Q)
              + (65 * (IZR B - 50 * IZR Q) * IZR P) * (65 * (IZR B - 50 * IZR Q) * IZR P)
              = (366 * IZR P * IZR Q) * (366 * IZR P * IZR Q)).
  { match type of H with
    | ?lhs = 0 =>
        assert (Hd : (105 * (100 * IZR P - IZR A) * IZR Q)
                     * (105 * (100 * IZR P - IZR A) * IZR Q)
                     + (65 * (IZR B - 50 * IZR Q) * IZR P)
                       * (65 * (IZR B - 50 * IZR Q) * IZR P)
                     - (366 * IZR P * IZR Q) * (366 * IZR P * IZR Q)
                     = (100 * IZR P * IZR Q) * (100 * IZR P * IZR Q) * lhs)
          by (field; split; lra)
    end.
    rewrite H in Hd. lra. }
  assert (E : ((105 * (100 * P - A) * Q) * (105 * (100 * P - A) * Q)
               + (65 * (B - 50 * Q) * P) * (65 * (B - 50 * Q) * P)
               = (366 * P * Q) * (366 * P * Q))%Z).
  { apply eq_IZR.
    repeat (rewrite plus_IZR || rewrite mult_IZR || rewrite minus_IZR).
    exact T. }
  assert (Hw : ((366 * P * Q) mod 5 <> 0)%Z).
  { replace (366 * P * Q)%Z with (366 * 2 ^ (k + j))%Z
      by (rewrite <- HPQ; ring).
    pose proof (pow2_mod_5 (k + j) ltac:(lia)) as Hpw.
    set (w := (2 ^ (k + j))%Z) in *. clearbody w.
    pose proof (Z.div_mod w 5 ltac:(lia)) as Ha.
    pose proof (Z.mod_pos_bound w 5 ltac:(lia)) as Hb.
    intros Hm. apply Z.mod_divide in Hm; [| lia]. destruct Hm as [c Hc]. lia. }
  apply square_mod_5 in Hw. rewrite <- E in Hw. apply Hw.
  replace ((105 * (100 * P - A) * Q) * (105 * (100 * P - A) * Q)
           + (65 * (B - 50 * Q) * P) * (65 * (B - 50 * Q) * P))%Z
    with (((21 * (100 * P - A) * Q) * (105 * (100 * P - A) * Q)
           + (13 * (B - 50 * Q) * P) * (65 * (B - 50 * Q) * P)) * 5)%Z by ring.
  apply Z.mod_mul. lia.
Qed.

End Dyadic.

Section Binary64Values.

(** Evaluates [F2R] at a given binary64 value, leaving the integer over
    the power of two it denotes. *)
Ltac eval_F2R f :=
  let v := eval vm_compute in (FloatOps.Prim2SF f) in
  unfold F2R; change (FloatOps.Prim2SF f) with v; cbv iota beta;
  repeat match goal with
  | |- context [IZR ?z] =>
      lazymatch z with
      | Z.pos _ => fail | Z.neg _ => fail | Z0 => fail
      | _ => let n := eval vm_compute in z in change (IZR z) with (IZR n)
      end
  end.

Lemma F2R_x_90 : F2R x_90 = 90.
Proof. eval_F2R x_90. lra. Qed.

Lemma F2R_y_50 : F2R y_50 = 50.
Proof. eval_F2R y_50. lra. Qed.

Lemma F2R_x_vanishing : 96.52 < F2R x_vanishing < 96.54.
Proof. eval_F2R x_vanishing. lra. Qed.

Lemma F2R_y_vanishing : 50.53 < F2R y_vanishing < 50.54.
Proof. eval_F2R y_vanishing. lra. Qed.

(** [x_on_circle] is 100 - 366/105 up to the rounding of binary64. *)
Lemma F2R_x_on_circle : Rabs (F2R x_on_circle - (100 - 366 / 105)) <= 1 / 10 ^ 14.
Proof. eval_F2R x_on_circle. apply Rabs_le. lra. Qed.

End Binary64Values.

Section Binary64Angle.

Variable pow2 : PrimFloat.float -> PrimFloat.float.

Lemma compute_shot_angle64_returns (x y : PrimFloat.float) :
  zero_divisor64 pow2 x y = false ->
  compute_shot_angle64 pow2 x y = Ok (shot_angle_value (F2R x) (F2R y)).
Proof.
  unfold zero_divisor64. intros H.
  unfold compute_shot_angle64, float_div64. rewrite H. reflexivity.
Qed.

Lemma compute_shot_angle64_raises (x y : PrimFloat.float) :
  compute_shot_angle64 pow2 x y = Raise ZeroDivisionError <->
  zero_divisor64 pow2 x y = true.
Proof.
  unfold compute_shot_angle64, float_div64, zero_divisor64.
  cbn [transform_coordinates_for_computation].
  destruct (PrimFloat.eqb (divisor64 pow2 x y) _); split; intros H;
    try reflexivity; discriminate H.
Qed.


(** Off the exact circle, the exact-arithmetic function returns the same
    angle. *)
Lemma shot_angle_value_exact (x y : R) :
  angle_divisor (fst (transform_coordinates_for_computation x y))
                (snd (transform_coordinates_for_computation x y)) <> 0 ->
  compute_shot_angle x y = Ok (shot_angle_value x y).
Proof. intros Hd. rewrite (compute_shot_angle_ok x y Hd). reflexivity. Qed.

(** Where the code returns, it returns what the exact-arithmetic function
    returns at the numbers the binary64 inputs denote. *)
Lemma compute_shot_angle64_exact (x y : PrimFloat.float) :
  zero_divisor64 pow2 x y = false ->
  compute_shot_angle64 pow2 x y = compute_shot_angle (F2R x) (F2R y).
Proof.
  intros H. rewrite (compute_shot_angle64_returns x y H).
  symmetry. apply shot_angle_value_exact. apply exact_divisor_nonzero.
Qed.

Lemma shot_angle_value_range (x y : PrimFloat.float) :
  F2R x < 100 -> 0 < shot_angle_value (F2R x) (F2R y) < PI.
Proof.
  intros Hx. unfold shot_angle_value.
  cbn [transform_coordinates_for_computation]. cbv zeta.
  apply corrected_atan_range.
  pose proof (exact_divisor_nonzero x y) as Hd.
  rewrite transform_fst, transform_snd in Hd.
  unfold Rdiv at 1. apply Rmult_integral_contrapositive_currified.
  - lra.
  - apply Rinv_neq_0_compat. exact Hd.
Qed.

Lemma compute_xg64_after_angle (fs : store) (xc yc : PrimFloat.float)
    (model_fn model_dir : string) (shot_ang : R) :
  compute_shot_angle64 pow2 xc yc = Ok shot_ang ->
  compute_xg64 fs pow2 xc yc model_fn model_dir =
    (model_params <- pickle_load fs model_dir model_fn ;;
     intercept <- series_get model_params "Intercept" ;;
     coef_dist <- series_get model_params "dist" ;;
     coef_angle <- series_get model_params "angle" ;;
     ret (1 / (1 + exp (-1 * (intercept
                              + compute_shot_distance (F2R xc) (F2R yc) * coef_dist
                              + shot_ang * coef_angle))))).
Proof. intros H. unfold compute_xg64. rewrite H. reflexivity. Qed.

Lemma compute_xg64_zero_divisor (fs : store) (xc yc : PrimFloat.float)
    (model_fn model_dir : string) :
  zero_divisor64 pow2 xc yc = true ->
  compute_xg64 fs pow2 xc yc model_fn model_dir = Raise ZeroDivisionError.
Proof.
  intros H. unfold compute_xg64.
  rewrite (proj2 (compute_shot_angle64_raises xc yc) H). reflexivity.
Qed.

End Binary64Angle.

Lemma in_domain64_90_50 : in_domain64 x_90 y_50.
Proof.
  unfold in_domain64. rewrite F2R_x_90, F2R_y_50.
  repeat split; try reflexivity; lra.
Qed.

Lemma in_domain64_vanishing : in_domain64 x_vanishing y_vanishing.
Proof.
  pose proof F2R_x_vanishing. pose proof F2R_y_vanishing.
  unfold in_domain64. repeat split; try reflexivity; lra.
Qed.


Lemma sq_divisor_90_50 : zero_divisor64 sq x_90 y_50 = false.
Proof. vm_compute. reflexivity. Qed.

Lemma sq_divisor_vanishes : zero_divisor64 sq x_vanishing y_vanishing = true.
Proof. vm_compute. reflexivity. Qed.

Lemma sq_divisor_on_circle : zero_divisor64 sq x_on_circle y_50 = false.
Proof. vm_compute. reflexivity. Qed.

(** C2, as the code has it.  For binary64 x in [0, 100) and y in [0, 100]
    at which the divisor, computed in binary64, is not zero,
    [compute_shot_angle] returns an angle strictly between 0 and PI,
    however the platform rounds [t ** 2]. *)
Theorem compute_shot_angle64_range (pow2 : PrimFloat.float -> PrimFloat.float)
    (x y : PrimFloat.float) :
  in_domain64 x y -> F2R x < 100 ->
  zero_divisor64 pow2 x y = false ->
  exists a, compute_shot_angle64 pow2 x y = Ok a /\ 0 < a < PI.
Proof.
  intros _ Hx Hd. rewrite (compute_shot_angle64_returns pow2 x y Hd).
  eexists. split; [reflexivity |]. apply shot_angle_value_range. exact Hx.
Qed.

Lemma compute_shot_angle64_range_witness :
  exists a, compute_shot_angle64 sq x_90 y_50 = Ok a /\ 0 < a < PI.
Proof.
  apply (compute_shot_angle64_range sq x_90 y_50 in_domain64_90_50);
    [rewrite F2R_x_90; lra | exact sq_divisor_90_50].
Defined.

(** C10 as stated fails at the point it names: at x = 100 - 366/105 (as
    binary64 has it) and y = 50 the divisor the code computes is not zero,
    and an angle is returned instead of a division by zero. *)
Lemma compute_shot_angle64_on_circle_returns :
  in_domain64 x_on_circle y_50 /\
  Rabs (F2R x_on_circle - (100 - 366 / 105)) <= 1 / 10 ^ 14 /\
  F2R y_50 = 50 /\
  zero_divisor64 sq x_on_circle y_50 = false /\
  (exists a, compute_shot_angle64 sq x_on_circle y_50 = Ok a) /\
  compute_shot_angle64 sq x_on_circle y_50 <> Raise ZeroDivisionError.
Proof.
  split.
  { pose proof F2R_x_on_circle as Hx. revert Hx.
    unfold Rabs; destruct (Rcase_abs _); intros Hx;
      unfold in_domain64; rewrite F2R_y_50;
      repeat split; try reflexivity; lra. }
  split; [exact F2R_x_on_circle |].
  split; [exact F2R_y_50 |]. split; [exact sq_divisor_on_circle |].
  rewrite (compute_shot_angle64_returns sq _ _ sq_divisor_on_circle).
  split; [eauto | discriminate].
Qed.

(** C10, as the code has it.  [compute_shot_angle] is not total on the
    declared domain: it raises [ZeroDivisionError] exactly at the inputs
    whose divisor, computed in binary64, is zero, and
    (96.53, 50.53406501831425) is such an input in [0, 100] x [0, 100]
    where no angle is returned.  These inputs are not the points with
    mx^2 + cy^2 = (7.32/2)^2: no binary64 input satisfies that
    equation. *)
Theorem compute_shot_angle64_not_total :
  (forall pow2 x y,
     in_domain64 x y ->
     (compute_shot_angle64 pow2 x y = Raise ZeroDivisionError <->
      zero_divisor64 pow2 x y = true)) /\
  (in_domain64 x_vanishing y_vanishing /\
   compute_shot_angle64 sq x_vanishing y_vanishing = Raise ZeroDivisionError /\
   forall a, compute_shot_angle64 sq x_vanishing y_vanishing <> Ok a) /\
  (forall x y : PrimFloat.float,
     ((100 - F2R x) * 105 / 100) ^ 2 + (Rabs (F2R y - 50) * 65 / 100) ^ 2
       <> (7.32 / 2) ^ 2).
Proof.
  split; [intros pow2 x y _; apply compute_shot_angle64_raises |]. split.
  - assert (E : compute_shot_angle64 sq x_vanishing y_vanishing
                = Raise ZeroDivisionError)
      by (apply compute_shot_angle64_raises; exact sq_divisor_vanishes).
    split; [exact in_domain64_vanishing |]. split; [exact E |].
    intros a Ha. rewrite E in Ha. discriminate Ha.
  - intros x y H. apply (exact_divisor_nonzero x y).
    rewrite transform_fst, transform_snd. unfold angle_divisor. lra.
Qed.




(** ** More on the binary64 code path *)

(** What the angle is: for a binary64 shot of the declared domain in front
    of the goal line whose binary64 divisor is not zero,
    [compute_shot_angle] returns
    arctan((t_y + 3.66) / t_x) - arctan((t_y - 3.66) / t_x), the difference
    of the directions of the two posts as seen from the shot, that is,
    the angle the goal mouth subtends. *)
Theorem compute_shot_angle64_subtended
    (pow2 : PrimFloat.float -> PrimFloat.float) (x y : PrimFloat.float) :
  in_domain64 x y -> F2R x < 100 ->
  zero_divisor64 pow2 x y = false ->
  let t_x := fst (transform_coordinates_for_computation (F2R x) (F2R y)) in
  let t_y := snd (transform_coordinates_for_computation (F2R x) (F2R y)) in
  compute_shot_angle64 pow2 x y =
    Ok (atan ((t_y + 7.32 / 2) / t_x) - atan ((t_y - 7.32 / 2) / t_x)).
Proof.
  intros _ Hx Hd t_x t_y.
  rewrite (compute_shot_angle64_returns pow2 x y Hd).
  pose proof (exact_divisor_nonzero x y) as Hreal.
  pose proof (shot_angle_value_exact (F2R x) (F2R y) Hreal) as Hv.
  rewrite (exact_angle_subtended (F2R x) (F2R y) Hx Hreal) in Hv.
  fold t_x t_y in Hv. symmetry. exact Hv.
Qed.

Lemma compute_shot_angle64_subtended_witness :
  let t_x := fst (transform_coordinates_for_computation (F2R x_90) (F2R y_50)) in
  let t_y := snd (transform_coordinates_for_computation (F2R x_90) (F2R y_50)) in
  compute_shot_angle64 sq x_90 y_50 =
    Ok (atan ((t_y + 7.32 / 2) / t_x) - atan ((t_y - 7.32 / 2) / t_x)).
Proof.
  apply (compute_shot_angle64_subtended sq x_90 y_50 in_domain64_90_50);
    [rewrite F2R_x_90; lra | exact sq_divisor_90_50].
Defined.

(** On the declared domain [compute_xg] raises [ZeroDivisionError] exactly
    at the shots whose binary64 divisor is zero, whatever the store holds
    and whichever file is asked for: the angle is computed before the file
    is opened. *)
Theorem compute_xg64_zero_division (fs : store)
    (pow2 : PrimFloat.float -> PrimFloat.float) (xc yc : PrimFloat.float)
    (model_fn model_dir : string) :
  in_domain64 xc yc ->
  (compute_xg64 fs pow2 xc yc model_fn model_dir = Raise ZeroDivisionError <->
   zero_divisor64 pow2 xc yc = true).
Proof.
  intros _. split; [| apply compute_xg64_zero_divisor].
  destruct (zero_divisor64 pow2 xc yc) eqn:Hd; [reflexivity |].
  rewrite (compute_xg64_after_angle pow2 fs _ _ _ _ _
             (compute_shot_angle64_returns pow2 xc yc Hd)).
  unfold pickle_load.
  destruct (fs model_dir model_fn) as [params |];
    [rewrite py_bind_ok | discriminate].
  destruct (series_get_cases params "Intercept") as [[b0 ->] | ->];
    [rewrite py_bind_ok | discriminate].
  destruct (series_get_cases params "dist") as [[b1 ->] | ->];
    [rewrite py_bind_ok | discriminate].
  destruct (series_get_cases params "angle") as [[b2 ->] | ->];
    [rewrite py_bind_ok | discriminate].
  discriminate.
Qed.

(** On the declared domain, where the binary64 divisor is not zero, what
    [compute_xg] does is decided by the store: a missing file raises
    [FileNotFoundError], and a stored record raises [KeyError] for the
    first of "Intercept", "dist", "angle" it does not have; only a
    complete record gives a value. *)
Theorem compute_xg64_store_errors (fs : store)
    (pow2 : PrimFloat.float -> PrimFloat.float) (xc yc : PrimFloat.float)
    (model_fn model_dir : string) :
  in_domain64 xc yc ->
  zero_divisor64 pow2 xc yc = false ->
  match fs model_dir model_fn with
  | None =>
      compute_xg64 fs pow2 xc yc model_fn model_dir =
        Raise (FileNotFoundError (model_dir, model_fn))
  | Some params =>
      match series_get params "Intercept", series_get params "dist",
            series_get params "angle" with
      | inl _, _, _ =>
          compute_xg64 fs pow2 xc yc model_fn model_dir
            = Raise (KeyError "Intercept")
      | inr _, inl _, _ =>
          compute_xg64 fs pow2 xc yc model_fn model_dir = Raise (KeyError "dist")
      | inr _, inr _, inl _ =>
          compute_xg64 fs pow2 xc yc model_fn model_dir = Raise (KeyError "angle")
      | inr _, inr _, inr _ =>
          exists xg, compute_xg64 fs pow2 xc yc model_fn model_dir = Ok xg
      end
  end.
Proof.
  intros _ Hd.
  rewrite (compute_xg64_after_angle pow2 fs _ _ _ _ _
             (compute_shot_angle64_returns pow2 xc yc Hd)).
  unfold pickle_load.
  destruct (fs model_dir model_fn) as [params |]; [| reflexivity].
  rewrite py_bind_ok.
  destruct (series_get_cases params "Intercept") as [[b0 ->] | ->];
    [rewrite py_bind_ok | reflexivity].
  destruct (series_get_cases params "dist") as [[b1 ->] | ->];
    [rewrite py_bind_ok | reflexivity].
  destruct (series_get_cases params "angle") as [[b2 ->] | ->];
    [rewrite py_bind_ok; eexists; reflexivity | reflexivity].
Qed.

Lemma compute_xg64_store_errors_witness :
  compute_xg64
    (fun _ _ => Some [("Intercept"%string, -1); ("angle"%string, 1.2)])
    sq x_90 y_50 "baseline_logistic_model.pkl" "../models"
  = Raise (KeyError "dist").
Proof.
  exact (compute_xg64_store_errors
           (fun _ _ => Some [("Intercept"%string, -1); ("angle"%string, 1.2)])
           sq x_90 y_50 "baseline_logistic_model.pkl" "../models"
           in_domain64_90_50 sq_divisor_90_50).
Defined.



Lemma compute_xg64_zero_division_witness :
  compute_xg64 Samples.zero_store sq x_vanishing y_vanishing
    "baseline_logistic_model.pkl" "../models" = Raise ZeroDivisionError <->
  zero_divisor64 sq x_vanishing y_vanishing = true.
Proof.
  apply (compute_xg64_zero_division Samples.zero_store sq
           x_vanishing y_vanishing "baseline_logistic_model.pkl" "../models"
           in_domain64_vanishing).
Defined.
